(** * switchy.apps.players: the [PlayRec] call flow

    A shallow embedding of [src/switchy/apps/players.py] and the properties
    of its event reactions.

    Layout:
    - [Py]: the fragment of the Python runtime the app relies on
      (exceptions, [int]/[float] numbers with binary64 [divmod] and
      comparison, the shape of a callback object as [inspect] sees it);
    - the data model: session and call handles, their [vars] stores,
      the [PlayRec] instance, the commands sent to sessions;
    - the reaction monad (state, exceptions, emitted commands);
    - [prepost], [__setduration__], [trigger_playback] and the seven
      event callbacks, transcribed reaction by reaction;
    - the theorems. *)

From Stdlib Require Import ZArith QArith Qround.
From Stdlib Require Import Floats.PrimFloat Floats.SpecFloat Floats.FloatOps
  Floats.FloatAxioms.
From stdpp Require Import gmap strings list fin_maps pretty.

Local Open Scope Z_scope.

(* ===================================================================== *)
(** ** Python runtime fragment *)
(* ===================================================================== *)

Module Py.

(** Exceptions a reaction can raise.  [NotBridged] is what asking for the
    peer of a session yields while the call has no second leg. *)
Inductive exn :=
| KeyError (key : string)
| ZeroDivisionError
| OverflowError
| AssertionError (msg : string)
| NotBridged.

Inductive result (A : Type) :=
| Ok (a : A)
| Raised (e : exn).
Arguments Ok {A} a.
Arguments Raised {A} e.

(** *** binary64 helpers: C's [fmod], [floor] and [copysign] *)

(** [fmod x y] is exact: the result is [x - n*y] for the integer [n]
    obtained by truncating [x/y], and carries the sign of [x]. *)
Definition fmod (x y : float) : float :=
  match Prim2SF x, Prim2SF y with
  | S754_nan, _ | _, S754_nan => nan
  | S754_infinity _, _ => nan
  | _, S754_zero _ => nan
  | S754_zero _, _ => x
  | S754_finite _ _ _, S754_infinity _ => x
  | S754_finite sx mx ex, S754_finite _ my ey =>
      let e := Z.min ex ey in
      match Z.rem (Z.pos mx * 2 ^ (ex - e)) (Z.pos my * 2 ^ (ey - e)) with
      | Z.pos p => SF2Prim (S754_finite sx p e)
      | _ => SF2Prim (S754_zero sx)
      end
  end.

Definition floor (x : float) : float :=
  match Prim2SF x with
  | S754_finite s m e =>
      if 0 <=? e then x
      else
        match ((if s then Z.neg m else Z.pos m) / 2 ^ (- e))%Z with
        | Z0 => SF2Prim (S754_zero s)
        | Z.pos p => SF2Prim (S754_finite false p 0)
        | Z.neg p => SF2Prim (S754_finite true p 0)
        end
  | _ => x
  end.

Definition copysign (x y : float) : float :=
  if Bool.eqb (get_sign x) (get_sign y) then x else (- x)%float.

(** CPython's [_float_div_mod] (Objects/floatobject.c): the remainder comes
    from [fmod] and is moved to the sign of the divisor, the quotient is
    [(vx - mod) / wx] snapped to the nearest integral value. *)
Definition float_div_mod (vx wx : float) : float * float :=
  let mod0 := fmod vx wx in
  let div0 := ((vx - mod0) / wx)%float in
  let '(mod1, div1) :=
    if negb (mod0 =? 0)%float then
      if negb (Bool.eqb (wx <? 0)%float (mod0 <? 0)%float)
      then ((mod0 + wx)%float, (div0 - 1)%float)
      else (mod0, div0)
    else (copysign 0%float wx, div0) in
  let floordiv :=
    if negb (div1 =? 0)%float then
      let fd := floor div1 in
      if (0.5 <? div1 - fd)%float then (fd + 1)%float else fd
    else copysign 0%float (vx / wx)%float in
  (floordiv, mod1).

(** *** Numbers: [int] and [float] *)

Inductive num :=
| Int (n : Z)
| Float (x : float).

(** [float(n)]: round to nearest even, [OverflowError] past the largest
    finite double. *)
Definition int_to_float (n : Z) : result float :=
  match binary_normalize prec emax n 0 false with
  | S754_infinity _ => Raised OverflowError
  | sf => Ok (SF2Prim sf)
  end.

Definition to_float (a : num) : result float :=
  match a with
  | Int n => int_to_float n
  | Float x => Ok x
  end.

(** [divmod(a, b)]: floor division on two ints, [_float_div_mod] as soon as
    one operand is a float. *)
Definition divmod (a b : num) : result (num * num) :=
  match a, b with
  | Int x, Int y =>
      if y =? 0 then Raised ZeroDivisionError
      else Ok (Int (x / y), Int (x mod y))
  | _, _ =>
      match to_float a with
      | Raised e => Raised e
      | Ok vx =>
          match to_float b with
          | Raised e => Raised e
          | Ok wx =>
              if (wx =? 0)%float then Raised ZeroDivisionError
              else let '(q, r) := float_div_mod vx wx in Ok (Float q, Float r)
          end
      end
  end.

(** [a % b] on ints. *)
Definition int_mod (a b : Z) : result Z :=
  if b =? 0 then Raised ZeroDivisionError else Ok (a mod b).

(** The exact value of a finite, non-zero double as [m * 2^e], and the
    mathematically exact mixed comparison CPython performs between an
    [int] and a [float]. *)
Definition int_lt_float (n : Z) (x : float) : bool :=
  match Prim2SF x with
  | S754_nan => false
  | S754_infinity s => negb s
  | S754_zero _ => n <? 0
  | S754_finite s m e =>
      let sm := if s then Z.neg m else Z.pos m in
      if 0 <=? e then n <? sm * 2 ^ e else n * 2 ^ (- e) <? sm
  end.

Definition float_lt_int (x : float) (n : Z) : bool :=
  match Prim2SF x with
  | S754_nan => false
  | S754_infinity s => s
  | S754_zero _ => 0 <? n
  | S754_finite s m e =>
      let sm := if s then Z.neg m else Z.pos m in
      if 0 <=? e then sm * 2 ^ e <? n else sm <? n * 2 ^ (- e)
  end.

(** [a < b] *)
Definition num_lt (a b : num) : bool :=
  match a, b with
  | Int x, Int y => x <? y
  | Int x, Float y => int_lt_float x y
  | Float x, Int y => float_lt_int x y
  | Float x, Float y => (x <? y)%float
  end.

(** *** Objects passed as [callback]

    What [prepost] looks at: truthiness, [inspect.isfunction] and, for a
    function, the tuple [inspect.getargspec] returns.  A function object
    is always truthy; [Object] stands for any other value. *)
Record argspec := ArgSpec {
  args : list string;
  varargs : option string;
  keywords : option string;
  defaults : nat
}.

Inductive obj :=
| None_
| Function (spec : argspec)
| Object (truth : bool).

Definition truthy (o : obj) : bool :=
  match o with
  | None_ => false
  | Function _ => true
  | Object b => b
  end.

Definition isfunction (o : obj) : bool :=
  match o with
  | Function _ => true
  | _ => false
  end.

End Py.

Import Py.

Arguments num_lt : simpl never.
Arguments divmod : simpl never.
Arguments int_mod : simpl never.

(* ===================================================================== *)
(** ** Data model *)
(* ===================================================================== *)

(** The handle a reaction receives.  [uuid], the owning call, the direction
    and [hungup] are read off the session object; [peer] is what
    [sess.call.get_peer(sess)] returns at the time of the event. *)
Inductive direction := inbound | outbound.

Record Session := mkSession {
  uuid : string;
  call : string;
  dir : direction;
  hungup : bool;
  peer : option string
}.

Definition is_inbound (sess : Session) : bool :=
  match dir sess with inbound => true | outbound => false end.

Definition is_outbound (sess : Session) : bool :=
  match dir sess with outbound => true | inbound => false end.

(** [sess.vars]: the keys this app stores, ['clip'] and ['recorded'].
    [None] is an absent key. *)
Inductive clip_tag := signal | silence.

Record SessVars := mkSessVars {
  clip : option clip_tag;
  recorded : option bool
}.

(** [call.vars]: ['noautohangup'], ['record'], ['iterations'], ['tail'],
    ['playback_count']. *)
Record CallVars := mkCallVars {
  noautohangup : option bool;
  record : option bool;
  iterations : option num;
  tail : option num;
  playback_count : option Z
}.

Definition no_sess_vars : SessVars := mkSessVars None None.
Definition no_call_vars : CallVars := mkCallVars None None None None None.

(** [RecInfo = namedtuple("RecInfo", "host caller callee")] *)
Record RecInfo := mkRecInfo {
  host : string;
  caller : string;
  callee : string
}.

(** The [PlayRec] instance ([self]).  [call2recs] maps a call uuid to the
    dict of its recording paths, keyed ['caller'] / ['callee']. *)
Record PlayRec := mkPlayRec {
  self_filename : string;
  self_category : string;
  self_framerate : Z;
  self_clip_length : num;
  self_callback : obj;
  self_rec_rate : Z;
  self_stereo : bool;
  self_silence : string;
  self_iterations : num;
  self_tail : num;
  self_call_count : Z;
  self_soundsdir : string;
  self_recsdir : string;
  self_audiofile : string;
  self_call2recs : gmap string (gmap string string);
  self_host : string
}.

(** Commands sent to a session, the invocation of the user callback and
    the one warning the app logs.  Debug logging is left out. *)
Inductive effect :=
| Answer (s : string)
| Playback (s : string) (what : string)
| BreakApp (s : string)
| StartRecord (s : string) (path : string) (stereo : bool)
| StopRecord (s : string) (delay : num)
| SchedHangup (s : string) (delay : num)
| Callback (info : RecInfo)
| LogWarn (s : string).

(** The whole store: the app instance and the [vars] dict of every session
    and call, by uuid.  A uuid without an entry has empty [vars]. *)
Record State := mkState {
  self : PlayRec;
  sess_vars : gmap string SessVars;
  call_vars : gmap string CallVars
}.

Definition vars_of_sess (st : State) (u : string) : SessVars :=
  default no_sess_vars (sess_vars st !! u).

Definition vars_of_call (st : State) (c : string) : CallVars :=
  default no_call_vars (call_vars st !! c).

(* ===================================================================== *)
(** ** The reaction monad *)
(* ===================================================================== *)

(** A reaction transforms the store, emits commands and either returns or
    raises.  What was mutated and emitted before a raise stays. *)
Definition M (A : Type) : Type := State -> result A * State * list effect.

Global Instance M_ret : MRet M := fun A a st => (Ok a, st, []).

Global Instance M_bind : MBind M := fun A B k m st =>
  match m st with
  | (Ok a, st1, fx1) =>
      match k a st1 with
      | (r, st2, fx2) => (r, st2, fx1 ++ fx2)
      end
  | (Raised e, st1, fx1) => (Raised e, st1, fx1)
  end.

Definition raise {A} (e : exn) : M A := fun st => (Raised e, st, []).

Definition emit (e : effect) : M unit := fun st => (Ok tt, st, [e]).

Definition get_self : M PlayRec := fun st => (Ok (self st), st, []).

Definition set_self (f : PlayRec -> PlayRec) : M unit := fun st =>
  (Ok tt, mkState (f (self st)) (sess_vars st) (call_vars st), []).

Definition get_sess_vars (u : string) : M SessVars := fun st =>
  (Ok (vars_of_sess st u), st, []).

Definition set_sess_vars (u : string) (f : SessVars -> SessVars) : M unit :=
  fun st =>
    (Ok tt,
     mkState (self st) (<[u := f (vars_of_sess st u)]> (sess_vars st))
       (call_vars st), []).

Definition get_call_vars (c : string) : M CallVars := fun st =>
  (Ok (vars_of_call st c), st, []).

Definition set_call_vars (c : string) (f : CallVars -> CallVars) : M unit :=
  fun st =>
    (Ok tt,
     mkState (self st) (sess_vars st)
       (<[c := f (vars_of_call st c)]> (call_vars st)), []).

(** [d[key]] on an optional entry *)
Definition item {A} (key : string) (o : option A) : M A :=
  match o with
  | Some a => mret a
  | None => raise (KeyError key)
  end.

Definition lift {A} (r : result A) : M A :=
  match r with
  | Ok a => mret a
  | Raised e => raise e
  end.

(** Modelled from the spec: [Call.get_peer], which is defined outside this
    file.  It yields the other leg of the call and fails with [NotBridged]
    while that leg does not exist. *)
Definition get_peer (sess : Session) : M string :=
  match peer sess with
  | Some p => mret p
  | None => raise NotBridged
  end.

(** Field updates *)
Definition with_clip (t : clip_tag) (v : SessVars) : SessVars :=
  mkSessVars (Some t) (recorded v).
Definition with_recorded (b : bool) (v : SessVars) : SessVars :=
  mkSessVars (clip v) (Some b).

Definition with_noautohangup (b : bool) (v : CallVars) : CallVars :=
  mkCallVars (Some b) (record v) (iterations v) (tail v) (playback_count v).
Definition with_record (b : bool) (v : CallVars) : CallVars :=
  mkCallVars (noautohangup v) (Some b) (iterations v) (tail v)
    (playback_count v).
Definition with_iterations (n : num) (v : CallVars) : CallVars :=
  mkCallVars (noautohangup v) (record v) (Some n) (tail v) (playback_count v).
Definition with_tail (n : num) (v : CallVars) : CallVars :=
  mkCallVars (noautohangup v) (record v) (iterations v) (Some n)
    (playback_count v).
Definition with_playback_count (n : Z) (v : CallVars) : CallVars :=
  mkCallVars (noautohangup v) (record v) (iterations v) (tail v) (Some n).

Definition with_call_count (n : Z) (a : PlayRec) : PlayRec :=
  mkPlayRec (self_filename a) (self_category a) (self_framerate a)
    (self_clip_length a) (self_callback a) (self_rec_rate a) (self_stereo a)
    (self_silence a) (self_iterations a) (self_tail a) n (self_soundsdir a)
    (self_recsdir a) (self_audiofile a) (self_call2recs a) (self_host a).

Definition with_call2recs (m : gmap string (gmap string string))
    (a : PlayRec) : PlayRec :=
  mkPlayRec (self_filename a) (self_category a) (self_framerate a)
    (self_clip_length a) (self_callback a) (self_rec_rate a) (self_stereo a)
    (self_silence a) (self_iterations a) (self_tail a) (self_call_count a)
    (self_soundsdir a) (self_recsdir a) (self_audiofile a) m (self_host a).

Definition with_duration (its tl : num) (a : PlayRec) : PlayRec :=
  mkPlayRec (self_filename a) (self_category a) (self_framerate a)
    (self_clip_length a) (self_callback a) (self_rec_rate a) (self_stereo a)
    (self_silence a) its tl (self_call_count a)
    (self_soundsdir a) (self_recsdir a) (self_audiofile a)
    (self_call2recs a) (self_host a).

(** [self.call2recs.setdefault(c, {})[key] = path] *)
Definition call2recs_store (c key path : string)
    (m : gmap string (gmap string string)) : gmap string (gmap string string) :=
  <[c := <[key := path]> (default ∅ (m !! c))]> m.

(* ===================================================================== *)
(** ** [PlayRec] *)
(* ===================================================================== *)

(** What [prepost] asks of the connection: [client.host] and the two
    [global_getvar] answers. *)
Record Client := mkClient {
  client_host : string;
  sound_prefix : string;
  recordings_dir : string
}.

(** The two asserts guarded by [if callback:] *)
Definition check_callback (callback : obj) : result unit :=
  if truthy callback then
    match callback with
    | Function spec =>
        if Nat.eqb (length (args spec)) 1 then Ok tt
        else Raised (AssertionError "")
    | _ => Raised (AssertionError "callback must be a function")
    end
  else Ok tt.

(** The attribute assignments of [prepost] *)
Definition instance (client : Client) (filename category : string)
    (clip_length : num) (sample_rate : Z) (iterations : num)
    (callback : obj) (rec_rate : Z) (rec_stereo : bool) : PlayRec :=
  {| self_filename := filename;
     self_category := category;
     self_framerate := sample_rate;
     self_clip_length := clip_length;
     self_callback := callback;
     self_rec_rate := rec_rate;
     self_stereo := rec_stereo;
     self_silence := "silence_stream://0";
     self_iterations := iterations;
     self_tail := Float 1;
     self_call_count := 0;
     self_soundsdir := sound_prefix client;
     self_recsdir := recordings_dir client;
     self_audiofile :=
       sound_prefix client +:+ "/" +:+ category +:+ "/" +:+
       pretty sample_rate +:+ "/" +:+ filename;
     self_call2recs := ∅;
     self_host := client_host client |}.

Definition prepost (client : Client) (filename category : string)
    (clip_length : num) (sample_rate : Z) (iterations : num)
    (callback : obj) (rec_rate : Z) (rec_stereo : bool) : result PlayRec :=
  match check_callback callback with
  | Raised e => Raised e
  | Ok _ =>
      Ok (instance client filename category clip_length sample_rate
            iterations callback rec_rate rec_stereo)
  end.

(** [prepost] with the keyword defaults of the source, the callback aside. *)
Definition prepost_default (client : Client) (callback : obj) (rec_rate : Z)
    : result PlayRec :=
  prepost client "ivr-founder_of_freesource.wav" "ivr" (Float 4.25) 8000
    (Int 1) callback rec_rate false.

Definition __setduration__ (value : num) : M unit :=
  app ← get_self;
  '(its, tl) ← lift (divmod value (self_clip_length app));
  set_self (with_duration its tl) ;;
  if num_lt tl (Float 1) then set_self (with_duration its (Float 1))
  else mret tt.

(** The body of [__setrate__] is a docstring and a commented-out line. *)
Definition __setrate__ (value : num) : M unit := mret tt.

Definition trigger_playback (sess : Session) : M unit :=
  app ← get_self;
  p ← get_peer sess;
  emit (Playback p (self_silence app)) ;;
  set_sess_vars p (with_clip silence) ;;
  set_call_vars (call sess) (with_playback_count 0).

(** CHANNEL_CREATE *)
Definition on_create (sess : Session) : M unit :=
  if is_outbound sess
  then set_call_vars (call sess) (with_noautohangup true)
  else mret tt.

(** CHANNEL_PARK *)
Definition on_park (sess : Session) : M unit :=
  if is_inbound sess then emit (Answer (uuid sess)) else mret tt.

(** CHANNEL_ANSWER *)
Definition on_answer (sess : Session) : M unit :=
  (if is_inbound sess then
     set_self (fun a => with_call_count (self_call_count a + 1) a) ;;
     app ← get_self;
     r ← lift (int_mod (self_call_count app) (self_rec_rate app));
     (if r =? 0 then
        let filename := self_recsdir app +:+ "/callee_" +:+ uuid sess +:+ ".wav" in
        emit (StartRecord (uuid sess) filename (self_stereo app)) ;;
        set_self (fun a =>
          with_call2recs
            (call2recs_store (call sess) "callee" filename (self_call2recs a)) a) ;;
        set_call_vars (call sess) (with_record true) ;;
        set_self (with_call_count 0)
      else mret tt) ;;
     set_call_vars (call sess) (with_iterations (self_iterations app)) ;;
     set_call_vars (call sess) (with_tail (self_tail app))
   else mret tt) ;;
  (if is_outbound sess then
     app ← get_self;
     vars ← get_call_vars (call sess);
     if default false (record vars) then
       let filename := self_recsdir app +:+ "/caller_" +:+ uuid sess +:+ ".wav" in
       emit (StartRecord (uuid sess) filename (self_stereo app)) ;;
       set_self (fun a =>
         with_call2recs
           (call2recs_store (call sess) "caller" filename (self_call2recs a)) a)
     else trigger_playback sess
   else mret tt).

(** PLAYBACK_START; [fp] is the event's ['Playback-File-Path'] *)
Definition on_play (sess : Session) (fp : string) : M unit :=
  app ← get_self;
  if decide (fp = self_audiofile app) then
    set_sess_vars (uuid sess) (with_clip signal)
  else if decide (fp = self_silence app) then
    set_sess_vars (uuid sess) (with_clip silence) ;;
    p ← get_peer sess;
    emit (BreakApp p) ;;
    emit (Playback p (self_audiofile app))
  else mret tt.

(** PLAYBACK_STOP *)
Definition on_stop (sess : Session) (fp : string) : M unit :=
  app ← get_self;
  sv ← get_sess_vars (uuid sess);
  tag ← item "clip" (clip sv);
  match tag with
  | signal =>
      vars ← get_call_vars (call sess);
      n ← item "playback_count" (playback_count vars);
      set_call_vars (call sess) (with_playback_count (n + 1)) ;;
      its ← item "iterations" (iterations vars);
      if num_lt (Int (n + 1)) its then
        emit (Playback (uuid sess) (self_silence app))
      else if default false (record vars) then
        tl ← item "tail" (tail vars);
        emit (StopRecord (uuid sess) tl) ;;
        p ← get_peer sess;
        emit (BreakApp p) ;;
        emit (StopRecord p tl)
      else emit (SchedHangup (uuid sess) (Float 0.5))
  | silence => mret tt
  end.

(** RECORD_START *)
Definition on_rec (sess : Session) (fp : string) : M unit :=
  set_sess_vars (uuid sess) (with_recorded false) ;;
  if is_outbound sess then trigger_playback sess else mret tt.

(** RECORD_STOP *)
Definition on_recstop (sess : Session) (fp : string) : M unit :=
  set_sess_vars (uuid sess) (with_recorded true) ;;
  (if hungup sess then emit (LogWarn (uuid sess)) else mret tt) ;;
  p ← get_peer sess;
  pv ← get_sess_vars p;
  if default true (recorded pv) then
    emit (SchedHangup (uuid sess) (Float 0.5)) ;;
    app ← get_self;
    recs ← item (call sess) (self_call2recs app !! call sess);
    if truthy (self_callback app) then
      cr ← item "caller" (recs !! "caller");
      ce ← item "callee" (recs !! "callee");
      emit (Callback (mkRecInfo (self_host app) cr ce))
    else mret tt
  else mret tt.

(** ** Event delivery *)

Inductive event :=
| CHANNEL_CREATE (sess : Session)
| CHANNEL_PARK (sess : Session)
| CHANNEL_ANSWER (sess : Session)
| PLAYBACK_START (sess : Session) (fp : string)
| PLAYBACK_STOP (sess : Session) (fp : string)
| RECORD_START (sess : Session) (fp : string)
| RECORD_STOP (sess : Session) (fp : string).

Definition session_of (e : event) : Session :=
  match e with
  | CHANNEL_CREATE s | CHANNEL_PARK s | CHANNEL_ANSWER s
  | PLAYBACK_START s _ | PLAYBACK_STOP s _
  | RECORD_START s _ | RECORD_STOP s _ => s
  end.

(** The [event_callback] table *)
Definition react (e : event) : M unit :=
  match e with
  | CHANNEL_CREATE s => on_create s
  | CHANNEL_PARK s => on_park s
  | CHANNEL_ANSWER s => on_answer s
  | PLAYBACK_START s fp => on_play s fp
  | PLAYBACK_STOP s fp => on_stop s fp
  | RECORD_START s fp => on_rec s fp
  | RECORD_STOP s fp => on_recstop s fp
  end.

(** Events are handled one after the other; a reaction that raises leaves
    its mutations and commands behind and the next event is handled from
    there. *)
Definition state_after {A} (r : result A * State * list effect) : State :=
  snd (fst r).
Definition effects_of {A} (r : result A * State * list effect) : list effect :=
  snd r.
Definition outcome_of {A} (r : result A * State * list effect) : result A :=
  fst (fst r).

Fixpoint run (evs : list event) (st : State) : State * list effect :=
  match evs with
  | [] => (st, [])
  | e :: evs' =>
      let r := react e st in
      let '(st', fx) := run evs' (state_after r) in
      (st', effects_of r ++ fx)
  end.

(** The callback invocations among a list of effects *)
Fixpoint callbacks (fx : list effect) : list RecInfo :=
  match fx with
  | [] => []
  | Callback info :: fx' => info :: callbacks fx'
  | _ :: fx' => callbacks fx'
  end.

(* ===================================================================== *)
(** ** Derived notions used by the statements *)
(* ===================================================================== *)

(** *** The rate gate over a stream of answered legs *)

Definition is_start_record (e : effect) : bool :=
  match e with
  | StartRecord _ _ _ => true
  | _ => false
  end.

(** [gate_marks legs st]: for each leg answered in turn, whether its
    CHANNEL_ANSWER reaction started a recording.  [answer_all] is the store
    once they have all been answered. *)
Fixpoint gate_marks (legs : list Session) (st : State) : list bool :=
  match legs with
  | [] => []
  | s :: legs' =>
      let r := on_answer s st in
      existsb is_start_record (effects_of r) :: gate_marks legs' (state_after r)
  end.

Fixpoint answer_all (legs : list Session) (st : State) : State :=
  match legs with
  | [] => st
  | s :: legs' => answer_all legs' (state_after (on_answer s st))
  end.

(** The [j]-th window of [period] consecutive marks *)
Definition window (period j : nat) (marks : list bool) : list bool :=
  take period (drop (j * period) marks).

(** *** Registry invariant: a call with recording paths has its record
    flag set *)
Definition recs_imply_record (st : State) : Prop :=
  ∀ c, is_Some (self_call2recs (self st) !! c) →
       record (vars_of_call st c) = Some true.

(** The record flag as [call.vars.get('record')] reads it *)
Definition record_enabled (st : State) (c : string) : bool :=
  default false (record (vars_of_call st c)).

(** *** Exact values and the exact-arithmetic reading of [divmod] *)

(** The rational a finite double denotes *)
Definition exact_value (x : float) : option Q :=
  match Prim2SF x with
  | S754_zero _ => Some 0%Q
  | S754_finite s m e =>
      Some (inject_Z (if s then Z.neg m else Z.pos m) * Qpower 2 e)%Q
  | _ => None
  end.



(** *** Which events the issued commands give rise to *)

(** Modelled from the spec: the event delivery of the host, which is outside
    this file.  A PLAYBACK_START of a file on a session answers a [playback]
    command for that file on that session and a RECORD_START answers a
    [start_record]; channel events come from signalling. *)
Definition commanded (fx : list effect) (e : event) : bool :=
  match e with
  | PLAYBACK_START s fp =>
      existsb (λ c, match c with
                    | Playback u what => String.eqb u (uuid s) && String.eqb what fp
                    | _ => false
                    end) fx
  | RECORD_START s fp =>
      existsb (λ c, match c with
                    | StartRecord u path _ => String.eqb u (uuid s) && String.eqb path fp
                    | _ => false
                    end) fx
  | _ => true
  end.

(** Modelled from the spec: per-leg event order of the host.  A
    PLAYBACK_STOP follows the PLAYBACK_START of the same file on the same
    session, a RECORD_STOP follows the RECORD_START. *)
Definition follows (past : list event) (e : event) : bool :=
  match e with
  | PLAYBACK_STOP s fp =>
      existsb (λ e', match e' with
                     | PLAYBACK_START s' fp' =>
                         String.eqb (uuid s') (uuid s) && String.eqb fp' fp
                     | _ => false
                     end) past
  | RECORD_STOP s fp =>
      existsb (λ e', match e' with
                     | RECORD_START s' fp' =>
                         String.eqb (uuid s') (uuid s) && String.eqb fp' fp
                     | _ => false
                     end) past
  | _ => true
  end.

(** An event sequence in which every event is [commanded] by what was issued
    so far and [follows] what was delivered so far. *)
Fixpoint orchestrated_from (past : list event) (fx : list effect)
    (evs : list event) (st : State) : bool :=
  match evs with
  | [] => true
  | e :: evs' =>
      commanded fx e && follows past e &&
      let r := react e st in
      orchestrated_from (past ++ [e]) (fx ++ effects_of r) evs' (state_after r)
  end.

Definition orchestrated (evs : list event) (st : State) : bool :=
  orchestrated_from [] [] evs st.

(** *** A two-leg call used in the examples

    One connection, one call ["call-1"] with its inbound leg ["leg-b"] and
    its outbound leg ["leg-a"], an app instance built with the defaults of
    [prepost], and a store where nothing has happened yet. *)
Definition demo_client : Client :=
  mkClient "fs-host" "/usr/share/sounds" "/var/recordings".

Definition one_arg_callback : obj :=
  Function (ArgSpec ["recinfo"] None None 0).

Definition demo_app (callback : obj) (rec_rate : Z) : PlayRec :=
  instance demo_client "ivr-founder_of_freesource.wav" "ivr" (Float 4.25)
    8000 (Int 1) callback rec_rate false.

Definition leg_b : Session :=
  mkSession "leg-b" "call-1" inbound false (Some "leg-a").

Definition leg_a : Session :=
  mkSession "leg-a" "call-1" outbound false (Some "leg-b").

Definition fresh (a : PlayRec) : State := mkState a ∅ ∅.

Definition demo_audiofile : string :=
  "/usr/share/sounds/ivr/8000/ivr-founder_of_freesource.wav".
Definition demo_silence : string := "silence_stream://0".
Definition demo_callee_path : string := "/var/recordings/callee_leg-b.wav".
Definition demo_caller_path : string := "/var/recordings/caller_leg-a.wav".

(** The recorded flow ([rec_rate = 1]) up to the last PLAYBACK_STOP, which
    asks both legs to stop recording. *)
Definition recorded_flow : list event :=
  [ CHANNEL_CREATE leg_a; CHANNEL_PARK leg_b;
    CHANNEL_ANSWER leg_b; RECORD_START leg_b demo_callee_path;
    CHANNEL_ANSWER leg_a; RECORD_START leg_a demo_caller_path;
    PLAYBACK_START leg_b demo_silence;
    PLAYBACK_START leg_a demo_audiofile;
    PLAYBACK_STOP leg_a demo_audiofile ].

(** The unrecorded flow ([rec_rate = 2], first call) up to the
    PLAYBACK_START of the reference clip. *)
Definition unrecorded_flow : list event :=
  [ CHANNEL_CREATE leg_a; CHANNEL_PARK leg_b;
    CHANNEL_ANSWER leg_b; CHANNEL_ANSWER leg_a;
    PLAYBACK_START leg_b demo_silence;
    PLAYBACK_START leg_a demo_audiofile ].

(** The stores these two flows lead to *)
Definition recording_state : State :=
  fst (run recorded_flow (fresh (demo_app one_arg_callback 1))).

Definition playing_state : State :=
  fst (run unrecorded_flow (fresh (demo_app one_arg_callback 2))).

Definition demo_recs : gmap string string :=
  <["caller" := demo_caller_path]> (<["callee" := demo_callee_path]> ∅).

Definition demo_info : RecInfo :=
  mkRecInfo "fs-host" demo_caller_path demo_callee_path.

(** Number of ['/'] characters of a path; ['/'] is character 47 *)
Definition slash : Ascii.ascii :=
  Ascii.Ascii true true true true false true false false.

Fixpoint slashes (s : string) : nat :=
  match s with
  | EmptyString => 0
  | String c s' => (if Ascii.eqb c slash then 1 else 0) + slashes s'
  end%nat.

(** No reaction touches the configuration held by the instance; only
    [call_count] and [call2recs] change. *)
Definition same_config (a a' : PlayRec) : Prop :=
  self_audiofile a' = self_audiofile a ∧
  self_silence a' = self_silence a ∧
  self_callback a' = self_callback a ∧
  self_host a' = self_host a ∧
  self_rec_rate a' = self_rec_rate a ∧
  self_recsdir a' = self_recsdir a ∧
  self_stereo a' = self_stereo a ∧
  self_iterations a' = self_iterations a ∧
  self_tail a' = self_tail a.

(** A callback [prepost] lets through its asserts: a function whose
    [getargspec] lists exactly one positional parameter *)
Definition one_positional (o : obj) : Prop :=
  ∃ spec, o = Function spec ∧ length (args spec) = 1%nat.

(** A second call, for streams of answered inbound legs *)
Definition leg_d : Session :=
  mkSession "leg-d" "call-2" inbound false (Some "leg-c").

(** [q * w + r = v] on the exact values of four doubles *)
Definition exact_identity (q w r v : float) : bool :=
  match exact_value q, exact_value w, exact_value r, exact_value v with
  | Some a, Some b, Some c, Some d => Qeq_bool (a * b + c) d
  | _, _, _, _ => false
  end.



(** *** Weakest preconditions over [M] *)

Definition wp {A} (m : M A) (st : State)
    (Q : result A → State → list effect → Prop) : Prop :=
  Q (outcome_of (m st)) (state_after (m st)) (effects_of (m st)).

(* ===================================================================== *)
(** ** [TonePlay] *)
(* ===================================================================== *)

(** The first app of the file keeps no state: each of its two callbacks
    only sends commands to the session of the event. *)
Module TonePlay.

Inductive command :=
| Answer (s : string)
| Broadcast (s : string) (what : string)
| Echo (s : string).

(** The milli-watt tone, looped for ever *)
Definition tone : string := "playback::{loops=-1}tone_stream://%(251,0,1004)".

(** CHANNEL_PARK *)
Definition on_park (sess : Session) : list command :=
  (if is_inbound sess then [Answer (uuid sess)] else []) ++
  (if is_outbound sess then [Broadcast (uuid sess) tone] else []).

(** CHANNEL_ANSWER *)
Definition on_answer (sess : Session) : list command :=
  if is_inbound sess then [Echo (uuid sess)] else [].

(** The [event_callback] table of the class: two entries *)
Definition react (e : event) : list command :=
  match e with
  | CHANNEL_PARK s => on_park s
  | CHANNEL_ANSWER s => on_answer s
  | _ => []
  end.

Definition run (evs : list event) : list command := flat_map react evs.

End TonePlay.

(* ===================================================================== *)
(** ** Further notions used by the statements *)
(* ===================================================================== *)

(** The session a command is sent to; the callback and the warning go to
    no session. *)
Definition target (c : effect) : option string :=
  match c with
  | Answer s | Playback s _ | BreakApp s | StartRecord s _ _
  | StopRecord s _ | SchedHangup s _ => Some s
  | Callback _ | LogWarn _ => None
  end.

(** Number of CHANNEL_ANSWER events of inbound legs in a sequence *)
Fixpoint inbound_answers (evs : list event) : nat :=
  match evs with
  | [] => 0
  | CHANNEL_ANSWER s :: evs' =>
      ((if is_inbound s then 1 else 0) + inbound_answers evs')%nat
  | _ :: evs' => inbound_answers evs'
  end.

(** A store in which no call has been marked and nothing is registered *)
Definition pristine (st : State) : Prop :=
  self_call2recs (self st) = ∅ ∧
  ∀ c, record (vars_of_call st c) = None.

(** Every record-enabled call has a registry entry holding a callee path *)
Definition record_has_callee (st : State) : Prop :=
  ∀ c, record (vars_of_call st c) = Some true →
       ∃ recs, self_call2recs (self st) !! c = Some recs ∧
               is_Some (recs !! "callee").

(** One round of the playback loop: the silence stream starts on [x], which
    starts the reference clip on its peer [y], which plays to its end. *)
Definition round (app : PlayRec) (x y : Session) : list event :=
  [ PLAYBACK_START x (self_silence app);
    PLAYBACK_START y (self_audiofile app);
    PLAYBACK_STOP y (self_audiofile app) ].

(** [n] rounds; the leg that played the clip carries the silence of the
    next round. *)
Fixpoint rounds (app : PlayRec) (n : nat) (x y : Session) : list event :=
  match n with
  | O => []
  | S n' => round app x y ++ rounds app n' y x
  end.

(** How often a file is asked to be played, on any leg *)
Fixpoint playbacks_of (what : string) (fx : list effect) : nat :=
  match fx with
  | [] => 0
  | Playback _ w :: fx' =>
      ((if String.eqb w what then 1 else 0) + playbacks_of what fx')%nat
  | _ :: fx' => playbacks_of what fx'
  end.

(** The hangups scheduled among a list of effects *)
Fixpoint hangups (fx : list effect) : list (string * num) :=
  match fx with
  | [] => []
  | SchedHangup s d :: fx' => (s, d) :: hangups fx'
  | _ :: fx' => hangups fx'
  end.

(** The two recording paths the app builds *)
Definition callee_path (app : PlayRec) (u : string) : string :=
  self_recsdir app +:+ "/callee_" +:+ u +:+ ".wav".
Definition caller_path (app : PlayRec) (u : string) : string :=
  self_recsdir app +:+ "/caller_" +:+ u +:+ ".wav".

(** The recorded flow just before its last PLAYBACK_STOP *)
Definition last_play_state : State :=
  fst (run (take 8 recorded_flow) (fresh (demo_app one_arg_callback 1))).

(** An instance that asks for three plays, and the unrecorded flow up to the
    start of the playback loop *)
Definition three_plays_app : PlayRec :=
  instance demo_client "ivr-founder_of_freesource.wav" "ivr" (Float 4.25)
    8000 (Int 3) one_arg_callback 2 false.

Definition loop_start_state : State :=
  fst (run [CHANNEL_ANSWER leg_b; CHANNEL_ANSWER leg_a] (fresh three_plays_app)).

(** A leg whose call has no second leg yet *)
Definition lone_leg : Session :=
  mkSession "leg-x" "call-3" outbound false None.

(** An event with the [hungup] attribute of its session set to [h] *)
Definition with_hungup (h : bool) (s : Session) : Session :=
  mkSession (uuid s) (call s) (dir s) h (peer s).

Definition event_with_hungup (h : bool) (e : event) : event :=
  match e with
  | CHANNEL_CREATE s => CHANNEL_CREATE (with_hungup h s)
  | CHANNEL_PARK s => CHANNEL_PARK (with_hungup h s)
  | CHANNEL_ANSWER s => CHANNEL_ANSWER (with_hungup h s)
  | PLAYBACK_START s fp => PLAYBACK_START (with_hungup h s) fp
  | PLAYBACK_STOP s fp => PLAYBACK_STOP (with_hungup h s) fp
  | RECORD_START s fp => RECORD_START (with_hungup h s) fp
  | RECORD_STOP s fp => RECORD_STOP (with_hungup h s) fp
  end.

(** The effects that are commands to the switch or to the callback, the
    log lines left out *)
Fixpoint without_warnings (fx : list effect) : list effect :=
  match fx with
  | [] => []
  | LogWarn _ :: fx' => without_warnings fx'
  | f :: fx' => f :: without_warnings fx'
  end.

(** The flow of a call whose outbound leg [a] is answered before its inbound
    leg [b], up to the start of the recording of [b] *)
Definition outbound_first (a b : Session) (fp : string) : list event :=
  [ CHANNEL_ANSWER a; CHANNEL_ANSWER b; RECORD_START b fp ].

(** Every path of the registry was built by [on_answer] from the instance's
    [recsdir] *)
Definition paths_well_formed (st : State) : Prop :=
  ∀ c recs, self_call2recs (self st) !! c = Some recs →
    (∀ p, recs !! "caller" = Some p → ∃ u, p = caller_path (self st) u) ∧
    (∀ p, recs !! "callee" = Some p → ∃ u, p = callee_path (self st) u).
(* ===================================================================== *)
(** ** Reasoning support *)
(* ===================================================================== *)

Ltac unfold_monad :=
  unfold mbind, M_bind, mret, M_ret, raise, emit, get_self, set_self,
    get_sess_vars, set_sess_vars, get_call_vars, set_call_vars, get_peer,
    item, lift, state_after, effects_of, outcome_of in *.

Ltac unfold_reactions :=
  unfold react, on_create, on_park, on_answer, on_play, on_stop, on_rec,
    on_recstop, trigger_playback in *.

Lemma vars_of_sess_insert_eq a (m : gmap string SessVars) u v c :
  vars_of_sess (mkState a (<[u := v]> m) c) u = v.
Proof. unfold vars_of_sess; cbn. by rewrite lookup_insert_eq. Qed.

Lemma vars_of_sess_insert_ne a (m : gmap string SessVars) u u' v c :
  u ≠ u' →
  vars_of_sess (mkState a (<[u := v]> m) c) u' = vars_of_sess (mkState a m c) u'.
Proof. intros. unfold vars_of_sess; cbn. by rewrite lookup_insert_ne. Qed.

Lemma vars_of_call_insert_eq a s (m : gmap string CallVars) c v :
  vars_of_call (mkState a s (<[c := v]> m)) c = v.
Proof. unfold vars_of_call; cbn. by rewrite lookup_insert_eq. Qed.

Lemma vars_of_call_insert_ne a s (m : gmap string CallVars) c c' v :
  c ≠ c' →
  vars_of_call (mkState a s (<[c := v]> m)) c' = vars_of_call (mkState a s m) c'.
Proof. intros. unfold vars_of_call; cbn. by rewrite lookup_insert_ne. Qed.

(** *** Rules of [wp], one per primitive *)

Lemma wp_ret {A} (a : A) st Q : Q (Ok a) st [] → wp (mret a) st Q.
Proof. done. Qed.

Lemma wp_raise {A} e st (Q : result A → State → list effect → Prop) :
  Q (Raised e) st [] → wp (raise e) st Q.
Proof. done. Qed.

Lemma wp_bind {A B} (m : M A) (k : A → M B) st Q :
  wp m st (λ r st1 fx1,
    match r with
    | Ok a => wp (k a) st1 (λ r2 st2 fx2, Q r2 st2 (fx1 ++ fx2))
    | Raised e => Q (Raised e) st1 fx1
    end) →
  wp (m ≫= k) st Q.
Proof.
  unfold wp, outcome_of, state_after, effects_of, mbind, M_bind.
  destruct (m st) as [[[a|e] st1] fx1]; cbn; [|done].
  by destruct (k a st1) as [[r st2] fx2].
Qed.

Lemma wp_emit e st Q : Q (Ok tt) st [e] → wp (emit e) st Q.
Proof. done. Qed.

Lemma wp_get_self st Q : Q (Ok (self st)) st [] → wp get_self st Q.
Proof. done. Qed.

Lemma wp_set_self f st Q :
  Q (Ok tt) (mkState (f (self st)) (sess_vars st) (call_vars st)) [] →
  wp (set_self f) st Q.
Proof. done. Qed.

Lemma wp_get_sess_vars u st Q :
  Q (Ok (vars_of_sess st u)) st [] → wp (get_sess_vars u) st Q.
Proof. done. Qed.

Lemma wp_set_sess_vars u f st Q :
  Q (Ok tt)
    (mkState (self st) (<[u := f (vars_of_sess st u)]> (sess_vars st))
       (call_vars st)) [] →
  wp (set_sess_vars u f) st Q.
Proof. done. Qed.

Lemma wp_get_call_vars c st Q :
  Q (Ok (vars_of_call st c)) st [] → wp (get_call_vars c) st Q.
Proof. done. Qed.

Lemma wp_set_call_vars c f st Q :
  Q (Ok tt)
    (mkState (self st) (sess_vars st)
       (<[c := f (vars_of_call st c)]> (call_vars st))) [] →
  wp (set_call_vars c f) st Q.
Proof. done. Qed.

Lemma wp_elim {A} (m : M A) st Q :
  wp m st Q → Q (outcome_of (m st)) (state_after (m st)) (effects_of (m st)).
Proof. done. Qed.

(** Symbolic execution of a reaction: one rule per step, a case split at
    every branch of the source. *)
Ltac wp_step :=
  lazymatch goal with
  | |- wp (mbind _ _) _ _ => apply wp_bind
  | |- wp (mret _) _ _ => apply wp_ret
  | |- wp (raise _) _ _ => apply wp_raise
  | |- wp (emit _) _ _ => apply wp_emit
  | |- wp get_self _ _ => apply wp_get_self
  | |- wp (set_self _) _ _ => apply wp_set_self
  | |- wp (get_sess_vars _) _ _ => apply wp_get_sess_vars
  | |- wp (set_sess_vars _ _) _ _ => apply wp_set_sess_vars
  | |- wp (get_call_vars _) _ _ => apply wp_get_call_vars
  | |- wp (set_call_vars _ _) _ _ => apply wp_set_call_vars
  | |- wp (get_peer _) _ _ => unfold get_peer
  | |- wp (item _ _) _ _ => unfold item
  | |- wp (lift _) _ _ => unfold lift
  | |- wp (trigger_playback _) _ _ => unfold trigger_playback
  | |- wp (if ?b then _ else _) _ _ => destruct b eqn:?
  | |- wp (match ?x with _ => _ end) _ _ => destruct x eqn:?
  end;
  cbn.

Ltac wp_run := repeat wp_step.

Ltac by_direction s :=
  let d := fresh "d" in
  destruct s as [? ? d ? ?]; destruct d;
  unfold is_inbound, is_outbound; cbn.

Ltac wp_event e :=
  let s := fresh "s" in
  destruct e as [s|s|s|s ?|s ?|s ?|s ?]; unfold react;
  unfold_reactions; by_direction s; wp_run.

Ltac map_cases :=
  unfold vars_of_call, vars_of_sess, call2recs_store, record_enabled in *;
  cbn in *;
  rewrite ?lookup_insert in *; repeat (case_decide; subst; cbn in * ).

Lemma default_false_true (o : option bool) :
  default false o = true → o = Some true.
Proof. by destruct o as [[]|]. Qed.

(** *** Frame properties of the reactions *)

Lemma react_recs_imply_record e st :
  recs_imply_record st →
  wp (react e) st (λ _ st' _, recs_imply_record st').
Proof.
  intros Hinv.
  wp_event e; try done.
  all: intros cid Hc; specialize (Hinv cid); map_cases; try done;
    try (by apply Hinv); by apply default_false_true.
Qed.

Lemma run_recs_imply_record evs st :
  recs_imply_record st → recs_imply_record (fst (run evs st)).
Proof.
  revert st. induction evs as [|e evs IH]; intros st Hinv; [done|].
  cbn. pose proof (wp_elim _ _ _ (react_recs_imply_record e st Hinv)) as H.
  specialize (IH _ H). by destruct (run evs (state_after (react e st))).
Qed.

(** The callback is only ever invoked by a reaction that found recording
    paths registered for the call of its session. *)
Lemma react_callback_needs_recs e st :
  wp (react e) st (λ _ _ fx,
    callbacks fx ≠ [] →
    is_Some (self_call2recs (self st) !! call (session_of e))).
Proof.
  wp_event e; try done.
  all: intros _; map_cases; eauto.
Qed.

Lemma empty_registry_invariant st :
  self_call2recs (self st) = ∅ → recs_imply_record st.
Proof. intros H c [x Hx]. rewrite H in Hx. by rewrite lookup_empty in Hx. Qed.

(** PLAYBACK_STOP on a session tagged ['signal'] whose increment reaches
    the iteration count, on a call that is not recorded. *)
Lemma on_stop_last_unrecorded st sess fp n its :
  clip (vars_of_sess st (uuid sess)) = Some signal →
  playback_count (vars_of_call st (call sess)) = Some n →
  iterations (vars_of_call st (call sess)) = Some its →
  num_lt (Int (n + 1)) its = false →
  record_enabled st (call sess) = false →
  outcome_of (on_stop sess fp st) = Ok tt ∧
  effects_of (on_stop sess fp st) = [SchedHangup (uuid sess) (Float 0.5)].
Proof.
  intros Hclip Hn Hits Hlt Hrec. unfold record_enabled in Hrec.
  unfold on_stop. unfold_monad.
  rewrite Hclip; cbn. rewrite Hn; cbn. rewrite Hits; cbn.
  rewrite Hlt, Hrec. done.
Qed.

(** *** RECORD_STOP on two legs that are both recording *)

Lemma on_recstop_first st a b fa :
  uuid a ≠ uuid b →
  peer a = Some (uuid b) →
  recorded (vars_of_sess st (uuid b)) = Some false →
  outcome_of (on_recstop a fa st) = Ok tt ∧
  callbacks (effects_of (on_recstop a fa st)) = [] ∧
  self (state_after (on_recstop a fa st)) = self st ∧
  recorded (vars_of_sess (state_after (on_recstop a fa st)) (uuid a)) = Some true ∧
  recorded (vars_of_sess (state_after (on_recstop a fa st)) (uuid b)) = Some false.
Proof.
  intros Hne Hp Hb. unfold on_recstop. unfold_monad. rewrite Hp.
  destruct (hungup a); cbn;
    rewrite vars_of_sess_insert_ne by done;
    (replace (mkState (self st) (sess_vars st) (call_vars st)) with st
       by (by destruct st));
    rewrite Hb; cbn; rewrite vars_of_sess_insert_eq;
    rewrite vars_of_sess_insert_ne by done;
    (replace (mkState (self st) (sess_vars st) (call_vars st)) with st
       by (by destruct st)); done.
Qed.

Lemma on_recstop_second st b a fb recs p_caller p_callee :
  uuid a ≠ uuid b →
  peer b = Some (uuid a) →
  recorded (vars_of_sess st (uuid a)) = Some true →
  self_call2recs (self st) !! call b = Some recs →
  recs !! "caller" = Some p_caller →
  recs !! "callee" = Some p_callee →
  truthy (self_callback (self st)) = true →
  outcome_of (on_recstop b fb st) = Ok tt ∧
  callbacks (effects_of (on_recstop b fb st)) =
    [mkRecInfo (self_host (self st)) p_caller p_callee].
Proof.
  intros Hne Hp Ha Hrecs Hcr Hce Hcb. unfold on_recstop. unfold_monad.
  rewrite Hp.
  destruct (hungup b); cbn;
    rewrite vars_of_sess_insert_ne by done;
    (replace (mkState (self st) (sess_vars st) (call_vars st)) with st
       by (by destruct st));
    rewrite Ha; cbn; rewrite Hrecs; cbn; rewrite Hcb, Hcr; cbn;
    rewrite Hce; done.
Qed.

Lemma recstop_pair st a b fa fb recs p_caller p_callee :
  call a = call b →
  uuid a ≠ uuid b →
  peer a = Some (uuid b) →
  peer b = Some (uuid a) →
  recorded (vars_of_sess st (uuid b)) = Some false →
  self_call2recs (self st) !! call a = Some recs →
  recs !! "caller" = Some p_caller →
  recs !! "callee" = Some p_callee →
  truthy (self_callback (self st)) = true →
  callbacks (snd (run [RECORD_STOP a fa; RECORD_STOP b fb] st)) =
    [mkRecInfo (self_host (self st)) p_caller p_callee].
Proof.
  intros Hcall Hne Hpa Hpb Hb Hrecs Hcr Hce Hcb.
  destruct (on_recstop_first st a b fa Hne Hpa Hb) as (_ & Hfx1 & Hself & Ha1 & _).
  cbn [run react snd]. rewrite app_nil_r.
  assert (Hcbs : ∀ l1 l2, callbacks (l1 ++ l2) = callbacks l1 ++ callbacks l2).
  { induction l1 as [|[] l1 IH]; intros; cbn; rewrite ?IH; done. }
  rewrite Hcbs, Hfx1. cbn [app].
  destruct (on_recstop_second (state_after (on_recstop a fa st)) b a fb
              recs p_caller p_callee) as [_ Hfx2]; try done.
  - by rewrite Hself, <- Hcall.
  - by rewrite Hself.
  - by rewrite Hfx2, Hself.
Qed.

(** The situation of [recstop_pair] is the one the app's own flow sets up:
    once the gate has marked the call at the inbound answer, the outbound
    answer registers the caller path, and the two RECORD_START events mark
    both legs as recording. *)
Lemma both_legs_recording st a b fa fb :
  dir a = outbound →
  dir b = inbound →
  call a = call b →
  uuid a ≠ uuid b →
  peer a = Some (uuid b) →
  int_mod (self_call_count (self st) + 1) (self_rec_rate (self st)) = Ok 0 →
  let st' :=
    fst (run [CHANNEL_ANSWER b; CHANNEL_ANSWER a;
              RECORD_START b fb; RECORD_START a fa] st) in
  recorded (vars_of_sess st' (uuid a)) = Some false ∧
  recorded (vars_of_sess st' (uuid b)) = Some false ∧
  self_callback (self st') = self_callback (self st) ∧
  self_host (self st') = self_host (self st) ∧
  ∃ recs,
    self_call2recs (self st') !! call a = Some recs ∧
    recs !! "caller" =
      Some (self_recsdir (self st) +:+ "/caller_" +:+ uuid a +:+ ".wav") ∧
    recs !! "callee" =
      Some (self_recsdir (self st) +:+ "/callee_" +:+ uuid b +:+ ".wav").
Proof.
  destruct a as [ua ca da ha pa], b as [ub cb db hb pb]. cbn.
  intros -> -> -> Hne -> Hmod.
  unfold_reactions. unfold is_inbound, is_outbound. unfold_monad. cbn.
  rewrite Hmod. cbn. rewrite !vars_of_call_insert_eq. cbn.
  unfold vars_of_sess. cbn.
  split; [|split; [|split; [done|split; [done|]]]].
  - rewrite !lookup_insert. repeat (case_decide; try congruence); done.
  - rewrite !lookup_insert. repeat (case_decide; try congruence); done.
  - eexists. split; [apply lookup_insert_eq|].
    split; rewrite !lookup_insert;
      repeat (case_decide; try congruence; cbn); try done.
    rewrite lookup_insert. by case_decide.
Qed.

(** Between RECORD_START and RECORD_STOP nothing else touches the
    ['recorded'] flag of a session. *)
Lemma react_recorded_frame e st u :
  wp (react e) st (λ _ st' _,
    (∀ s fp, e = RECORD_START s fp → uuid s ≠ u) →
    (∀ s fp, e = RECORD_STOP s fp → uuid s ≠ u) →
    recorded (vars_of_sess st' u) = recorded (vars_of_sess st u)).
Proof.
  wp_event e; intros Hstart Hstop; map_cases; try done.
  all: first [ by destruct (Hstart _ _ eq_refl) | by destruct (Hstop _ _ eq_refl) ].
Qed.

(** *** The reference clip is never the silence stream *)

Lemma slashes_app (s t : string) :
  slashes (s +:+ t) = (slashes s + slashes t)%nat.
Proof.
  induction s as [|c s IH]; [done|].
  change (String c s +:+ t) with (String c (s +:+ t)).
  cbn [slashes]. rewrite IH. lia.
Qed.

Lemma instance_audiofile_not_silence client filename category clip_length
    sample_rate iterations callback rec_rate rec_stereo :
  let a := instance client filename category clip_length sample_rate
             iterations callback rec_rate rec_stereo in
  self_audiofile a ≠ self_silence a.
Proof.
  intros a Heq. subst a. unfold instance in Heq.
  cbn [self_audiofile self_silence] in Heq.
  apply (f_equal slashes) in Heq.
  rewrite !slashes_app in Heq. cbn in Heq. lia.
Qed.

Lemma prepost_audiofile_not_silence client filename category clip_length
    sample_rate iterations callback rec_rate rec_stereo a :
  prepost client filename category clip_length sample_rate iterations
    callback rec_rate rec_stereo = Ok a →
  self_audiofile a ≠ self_silence a.
Proof.
  unfold prepost. destruct (check_callback callback); [|done].
  intros [= <-]. apply instance_audiofile_not_silence.
Qed.

Lemma react_same_config e st :
  wp (react e) st (λ _ st' _, same_config (self st) (self st')).
Proof. wp_event e; done. Qed.

Lemma run_same_config evs st :
  same_config (self st) (self (fst (run evs st))).
Proof.
  revert st. induction evs as [|e evs IH]; intros st; [done|].
  cbn. pose proof (wp_elim _ _ _ (react_same_config e st)) as H.
  specialize (IH (state_after (react e st))).
  destruct (run evs (state_after (react e st))) as [st' fx]; cbn in *.
  unfold same_config in *. intuition congruence.
Qed.

(** In every store reached from an instance built by [prepost], the
    reference clip differs from the silence stream. *)
Lemma reachable_audiofile_not_silence client filename category clip_length
    sample_rate iterations callback rec_rate rec_stereo a evs :
  prepost client filename category clip_length sample_rate iterations
    callback rec_rate rec_stereo = Ok a →
  self_audiofile (self (fst (run evs (fresh a)))) ≠
  self_silence (self (fst (run evs (fresh a)))).
Proof.
  intros Hpre. apply prepost_audiofile_not_silence in Hpre.
  destruct (run_same_config evs (fresh a)) as (Ha & Hs & _).
  by rewrite Ha, Hs.
Qed.

(** *** Who asks a leg to record *)

(** A [start_record] on a session is only ever issued by the CHANNEL_ANSWER
    reaction of that very session. *)
Lemma react_start_record_origin e st :
  wp (react e) st (λ _ _ fx,
    ∀ u path stereo, StartRecord u path stereo ∈ fx →
      ∃ s, e = CHANNEL_ANSWER s ∧ uuid s = u).
Proof.
  wp_event e; intros u path stereo Hin;
    repeat (apply elem_of_cons in Hin as [Hin|Hin];
            [try discriminate; simplify_eq; eauto|]);
    by apply elem_of_nil in Hin.
Qed.

Lemma run_no_start_record evs st u :
  Forall (λ e, ∀ s, e = CHANNEL_ANSWER s → uuid s ≠ u) evs →
  ∀ path stereo, StartRecord u path stereo ∉ snd (run evs st).
Proof.
  revert st. induction evs as [|e evs IH]; intros st Hevs path stereo; cbn.
  - apply not_elem_of_nil.
  - apply Forall_cons in Hevs as [He Hevs].
    specialize (IH (state_after (react e st)) Hevs path stereo).
    destruct (run evs (state_after (react e st))) as [st' fx]; cbn in *.
    intros [Hin|Hin]%elem_of_app; [|done].
    destruct (wp_elim _ _ _ (react_start_record_origin e st) _ _ _ Hin)
      as (s & -> & Hu).
    by apply (He s).
Qed.

Lemma on_answer_outbound_recording st o :
  dir o = outbound →
  record_enabled st (call o) = true →
  outcome_of (on_answer o st) = Ok tt ∧
  effects_of (on_answer o st) =
    [StartRecord (uuid o)
       (self_recsdir (self st) +:+ "/caller_" +:+ uuid o +:+ ".wav")
       (self_stereo (self st))].
Proof.
  intros Hd Hrec. unfold record_enabled in Hrec.
  unfold on_answer, is_inbound, is_outbound. rewrite Hd. unfold_monad. cbn.
  replace (mkState (self st) (sess_vars st) (call_vars st)) with st
    by (by destruct st).
  by rewrite Hrec.
Qed.

Lemma on_answer_outbound_not_recording st o p :
  dir o = outbound →
  peer o = Some p →
  record_enabled st (call o) = false →
  outcome_of (on_answer o st) = Ok tt ∧
  effects_of (on_answer o st) = [Playback p (self_silence (self st))] ∧
  self (state_after (on_answer o st)) = self st ∧
  record_enabled (state_after (on_answer o st)) (call o) = false.
Proof.
  intros Hd Hp Hrec. unfold record_enabled in *.
  unfold on_answer, trigger_playback, is_inbound, is_outbound.
  rewrite Hd. unfold_monad. cbn.
  replace (mkState (self st) (sess_vars st) (call_vars st)) with st
    by (by destruct st).
  rewrite Hrec, Hp. cbn. rewrite vars_of_call_insert_eq.
  repeat split; done.
Qed.

(** CHANNEL_ANSWER on an inbound leg when the incremented counter is a
    multiple of the rate *)
Lemma on_answer_inbound_marked st i :
  dir i = inbound →
  int_mod (self_call_count (self st) + 1) (self_rec_rate (self st)) = Ok 0 →
  outcome_of (on_answer i st) = Ok tt ∧
  effects_of (on_answer i st) =
    [StartRecord (uuid i)
       (self_recsdir (self st) +:+ "/callee_" +:+ uuid i +:+ ".wav")
       (self_stereo (self st))] ∧
  record_enabled (state_after (on_answer i st)) (call i) = true ∧
  self_call_count (self (state_after (on_answer i st))) = 0 ∧
  self_rec_rate (self (state_after (on_answer i st))) = self_rec_rate (self st) ∧
  self_call2recs (self (state_after (on_answer i st))) =
    call2recs_store (call i) "callee"
      (self_recsdir (self st) +:+ "/callee_" +:+ uuid i +:+ ".wav")
      (self_call2recs (self st)).
Proof.
  intros Hd Hmod.
  unfold on_answer, is_inbound, is_outbound. rewrite Hd. unfold_monad. cbn.
  rewrite Hmod. cbn. unfold record_enabled.
  rewrite !vars_of_call_insert_eq. done.
Qed.

(** *** The registry of recording paths *)

(** RECORD_STOP leaves the instance, hence the registry, and every call's
    [vars] as they were. *)
Lemma on_recstop_keeps_self sess fp st :
  wp (on_recstop sess fp) st (λ _ st' _,
    self st' = self st ∧ call_vars st' = call_vars st).
Proof. unfold on_recstop. wp_run; done. Qed.

(** No reaction removes an entry of the registry or a path of an entry. *)
Lemma react_keeps_registry e st :
  wp (react e) st (λ _ st' _,
    ∀ c recs, self_call2recs (self st) !! c = Some recs →
      ∃ recs', self_call2recs (self st') !! c = Some recs' ∧
               ∀ k v, recs !! k = Some v → is_Some (recs' !! k)).
Proof.
  wp_event e; intros cid recs Hc; map_cases; eauto.
  all: rewrite ?Hc; cbn; eexists; split; [done|].
  all: intros k v Hk; rewrite lookup_insert; case_decide; eauto.
Qed.

(** *** RECORD_STOP for a call without recording paths *)

(** The callback is only ever invoked with both registered paths of the
    call of the session that stopped recording. *)
Lemma on_recstop_callback_paths sess fp st :
  wp (on_recstop sess fp) st (λ _ _ fx,
    callbacks fx ≠ [] →
    ∃ recs cr ce,
      self_call2recs (self st) !! call sess = Some recs ∧
      recs !! "caller" = Some cr ∧ recs !! "callee" = Some ce ∧
      callbacks fx = [mkRecInfo (self_host (self st)) cr ce]).
Proof.
  unfold on_recstop. wp_run; try done.
  all: intros _; eauto 10.
Qed.

(** *** The playback count *)

(** What a reaction does to the playback count of a call [c]: nothing, or
    the increment of [on_stop] on a leg of [c] tagged ['signal'], or the
    reset by [trigger_playback], which only the CHANNEL_ANSWER of an outbound
    leg of a call that is not recorded and the RECORD_START of an outbound
    leg reach, and only when the leg has a peer. *)
Lemma react_playback_count_change e st c :
  wp (react e) st (λ _ st' fx,
    playback_count (vars_of_call st' c) = playback_count (vars_of_call st c) ∨
    (∃ s fp n,
       e = PLAYBACK_STOP s fp ∧ call s = c ∧
       clip (vars_of_sess st (uuid s)) = Some signal ∧
       playback_count (vars_of_call st c) = Some n ∧
       playback_count (vars_of_call st' c) = Some (n + 1)) ∨
    (∃ s p,
       (e = CHANNEL_ANSWER s ∧ record_enabled st c = false ∨
        ∃ fp, e = RECORD_START s fp) ∧
       dir s = outbound ∧ call s = c ∧ peer s = Some p ∧
       playback_count (vars_of_call st' c) = Some 0 ∧
       fx = [Playback p (self_silence (self st))])).
Proof.
  wp_event e; map_cases; try (by left).
  all: first
    [ right; left; eexists (mkSession _ _ _ _ _), _, _; cbn;
      split; [reflexivity|]; by repeat split
    | right; right; eexists (mkSession _ _ _ _ _), _; cbn;
      split; [left; split; [reflexivity|done]|]; by repeat split
    | right; right; eexists (mkSession _ _ _ _ _), _; cbn;
      split; [right; eexists; reflexivity|]; by repeat split ].
Qed.

Lemma on_stop_signal st sess fp n :
  clip (vars_of_sess st (uuid sess)) = Some signal →
  playback_count (vars_of_call st (call sess)) = Some n →
  playback_count (vars_of_call (state_after (on_stop sess fp st)) (call sess)) =
    Some (n + 1).
Proof.
  intros Hclip Hn.
  unfold on_stop. unfold_monad. rewrite Hclip; cbn. rewrite Hn; cbn.
  destruct (iterations _) as [its|]; cbn;
    [|by rewrite vars_of_call_insert_eq].
  destruct (num_lt _ _); cbn; [by rewrite vars_of_call_insert_eq|].
  destruct (default false _); cbn; [|by rewrite vars_of_call_insert_eq].
  destruct (tail _); cbn; [|by rewrite vars_of_call_insert_eq].
  destruct (peer sess); cbn; by rewrite vars_of_call_insert_eq.
Qed.

Lemma on_stop_not_signal st sess fp :
  clip (vars_of_sess st (uuid sess)) ≠ Some signal →
  state_after (on_stop sess fp st) = st ∧
  effects_of (on_stop sess fp st) = [].
Proof.
  intros Hclip. unfold on_stop. unfold_monad.
  destruct (clip (vars_of_sess st (uuid sess))) as [[]|]; done.
Qed.

(** *** The rate gate *)

Lemma on_answer_inbound_gate st i p :
  dir i = inbound →
  p ≠ 0 →
  self_rec_rate (self st) = p →
  outcome_of (on_answer i st) = Ok tt ∧
  existsb is_start_record (effects_of (on_answer i st)) =
    ((self_call_count (self st) + 1) mod p =? 0) ∧
  self_call_count (self (state_after (on_answer i st))) =
    (if (self_call_count (self st) + 1) mod p =? 0 then 0
     else self_call_count (self st) + 1) ∧
  self_rec_rate (self (state_after (on_answer i st))) = p ∧
  ((self_call_count (self st) + 1) mod p = 0 →
   record_enabled (state_after (on_answer i st)) (call i) = true).
Proof.
  intros Hd Hp Hrate.
  unfold on_answer, is_inbound, is_outbound. rewrite Hd. unfold_monad. cbn.
  rewrite Hrate. unfold int_mod.
  destruct (p =? 0) eqn:Hp0; [apply Z.eqb_eq in Hp0; done|]. cbn.
  destruct ((self_call_count (self st) + 1) mod p =? 0) eqn:Hm; cbn.
  - unfold record_enabled. rewrite !vars_of_call_insert_eq. done.
  - apply Z.eqb_neq in Hm. done.
Qed.

Lemma gate_marks_length legs st : length (gate_marks legs st) = length legs.
Proof. revert st. induction legs as [|s legs IH]; intros st; cbn; [done|]. by rewrite IH. Qed.

Lemma answer_all_app l1 l2 st :
  answer_all (l1 ++ l2) st = answer_all l2 (answer_all l1 st).
Proof. revert st. induction l1 as [|s l1 IH]; intros st; cbn; [done|]. apply IH. Qed.

(** An inbound answer changes the record flag of its own call only, and
    only when the gate marks it. *)
Lemma on_answer_inbound_record st i p c :
  dir i = inbound →
  p ≠ 0 →
  self_rec_rate (self st) = p →
  record (vars_of_call (state_after (on_answer i st)) c) =
    (if ((self_call_count (self st) + 1) mod p =? 0) && bool_decide (c = call i)
     then Some true else record (vars_of_call st c)).
Proof.
  intros Hd Hp Hrate.
  destruct (decide (c = call i)) as [->|Hc];
    [rewrite bool_decide_eq_true_2 by done
    |rewrite bool_decide_eq_false_2 by done]; rewrite ?andb_true_r, ?andb_false_r.
  all: unfold on_answer, is_inbound, is_outbound; rewrite Hd; unfold_monad; cbn.
  all: rewrite Hrate; unfold int_mod.
  all: destruct (p =? 0) eqn:Hp0; [apply Z.eqb_eq in Hp0; done|]; cbn.
  all: destruct ((self_call_count (self st) + 1) mod p =? 0) eqn:Hm; cbn.
  all: map_cases; done.
Qed.

Lemma on_answer_record_frame st s c :
  c ≠ call s →
  record (vars_of_call (state_after (on_answer s st)) c) =
    record (vars_of_call st c).
Proof.
  intros Hc.
  assert (H : wp (on_answer s) st (λ _ st' _,
    record (vars_of_call st' c) = record (vars_of_call st c))); [|exact H].
  unfold on_answer. by_direction s; wp_run; map_cases; done.
Qed.

Lemma answer_all_record_frame legs st c :
  c ∉ call <$> legs →
  record (vars_of_call (answer_all legs st) c) = record (vars_of_call st c).
Proof.
  revert st. induction legs as [|s legs IH]; intros st Hc; [done|].
  cbn [answer_all]. rewrite fmap_cons in Hc.
  apply not_elem_of_cons in Hc as [Hs Hc].
  rewrite IH by done. by apply on_answer_record_frame.
Qed.

Section RateGate.

(** The configured rate, at least one call per recording *)
Variable p : Z.
Hypothesis rate_positive : 1 ≤ p.

Lemma counter_step (c0 : Z) :
  0 ≤ c0 < p →
  (if (c0 + 1) mod p =? 0 then 0 else c0 + 1) = (c0 + 1) mod p.
Proof.
  intros Hc. destruct (decide (c0 + 1 = p)) as [->|Hne].
  - rewrite Z_mod_same_full. done.
  - rewrite Z.mod_small by lia.
    destruct (c0 + 1 =? 0) eqn:H0; [apply Z.eqb_eq in H0; lia|done].
Qed.

(** The gate from any counter value [c0] below the rate: the [k]-th
    answered leg is marked exactly when [c0 + k + 1] is a multiple of the
    rate, and the counter then holds [(c0 + k + 1) mod p]. *)
Lemma gate_marks_from legs st c0 :
  self_rec_rate (self st) = p →
  self_call_count (self st) = c0 →
  0 ≤ c0 < p →
  Forall (λ s, dir s = inbound) legs →
  (∀ k, (k < length legs)%nat →
        gate_marks legs st !! k = Some ((c0 + Z.of_nat k + 1) mod p =? 0)) ∧
  self_call_count (self (answer_all legs st)) =
    (c0 + Z.of_nat (length legs)) mod p ∧
  self_rec_rate (self (answer_all legs st)) = p.
Proof.
  revert st c0.
  induction legs as [|s legs IH]; intros st c0 Hrate Hcount Hc0 Hin.
  - cbn. split; [intros k Hk; lia|]. split; [|done].
    rewrite Z.add_0_r, Z.mod_small by lia. done.
  - apply Forall_cons in Hin as [Hs Hin].
    destruct (on_answer_inbound_gate st s p Hs ltac:(lia) Hrate)
      as (_ & Hmark & Hcnt & Hrate' & _).
    rewrite Hcount in Hmark, Hcnt. rewrite counter_step in Hcnt by done.
    destruct (IH (state_after (on_answer s st)) ((c0 + 1) mod p)
                Hrate' Hcnt ltac:(apply Z.mod_pos_bound; lia) Hin)
      as (IHm & IHc & IHr).
    cbn [gate_marks answer_all length]. split; [|split; [|done]].
    + intros [|k] Hk; cbn [lookup list_lookup].
      * rewrite Hmark. by replace (c0 + Z.of_nat 0 + 1) with (c0 + 1) by lia.
      * rewrite IHm by (cbn in Hk; lia).
        replace ((c0 + 1) mod p + Z.of_nat k + 1)
          with ((c0 + 1) mod p + (Z.of_nat k + 1)) by lia.
        rewrite Zplus_mod_idemp_l.
        by replace (c0 + 1 + (Z.of_nat k + 1))
          with (c0 + Z.of_nat (S k) + 1) by lia.
    + rewrite IHc. rewrite Zplus_mod_idemp_l. f_equal. lia.
Qed.

End RateGate.

Lemma window_lookup period j i (marks : list bool) :
  (i < period)%nat →
  window period j marks !! i = marks !! (j * period + i)%nat.
Proof.
  intros Hi. unfold window. by rewrite lookup_take_lt, lookup_drop.
Qed.

Lemma multiple_in_window (period j i : nat) :
  (i < period)%nat →
  ((0 + Z.of_nat (j * period + i) + 1) mod Z.of_nat period =? 0) =
  bool_decide (i = (period - 1)%nat).
Proof.
  intros Hi.
  replace (0 + Z.of_nat (j * period + i) + 1)
    with (Z.of_nat i + 1 + Z.of_nat j * Z.of_nat period) by lia.
  rewrite Z_mod_plus_full.
  case_bool_decide as Heq.
  - replace (Z.of_nat i + 1) with (Z.of_nat period) by lia.
    by rewrite Z_mod_same_full.
  - rewrite Z.mod_small by lia. apply Z.eqb_neq. lia.
Qed.

(** *** [__setduration__] *)

Lemma setduration_result st value q r :
  divmod value (self_clip_length (self st)) = Ok (q, r) →
  outcome_of (__setduration__ value st) = Ok tt ∧
  self_iterations (self (state_after (__setduration__ value st))) = q ∧
  self_tail (self (state_after (__setduration__ value st))) =
    (if num_lt r (Float 1) then Float 1 else r) ∧
  num_lt (self_tail (self (state_after (__setduration__ value st))))
    (Float 1) = false.
Proof.
  intros Hdiv. unfold __setduration__. unfold_monad. rewrite Hdiv. cbn.
  destruct (num_lt r (Float 1)) eqn:Hlt; cbn; repeat split; done.
Qed.





(** Rounding alone already breaks the identity in floating point: with a
    clip of 1.4 s and a duration of 5.3 s it holds on the exact values of
    the doubles and fails when evaluated in binary64. *)
Lemma setduration_rounding :
  divmod (Float 0x1.5333333333333p+2) (Float 0x1.6666666666666p+0) =
    Ok (Float 3, Float 0x1.199999999999ap+0) ∧
  (3 * 0x1.6666666666666p+0 + 0x1.199999999999ap+0 =? 0x1.5333333333333p+2)%float
    = false ∧
  exact_identity 3 0x1.6666666666666p+0 0x1.199999999999ap+0
    0x1.5333333333333p+2 = true.
Proof. repeat split; vm_compute; reflexivity. Qed.


(** A NaN duration leaves a NaN tail, which is neither below nor at least
    1.0. *)
Lemma setduration_nan_tail :
  self_tail
    (self (state_after
       (__setduration__ (Float nan) (fresh (demo_app one_arg_callback 1))))) =
    Float nan ∧
  (nan <? 1)%float = false ∧ (1 <=? nan)%float = false.
Proof. repeat split; vm_compute; reflexivity. Qed.

(** *** The two example flows are flows the issued commands give rise to *)

Lemma recorded_flow_orchestrated :
  orchestrated
    (recorded_flow ++ [RECORD_STOP leg_a demo_caller_path;
                       RECORD_STOP leg_b demo_callee_path])
    (fresh (demo_app one_arg_callback 1)) = true.
Proof. vm_compute. reflexivity. Qed.

Lemma unrecorded_flow_orchestrated :
  orchestrated (unrecorded_flow ++ [PLAYBACK_STOP leg_a demo_audiofile])
    (fresh (demo_app one_arg_callback 2)) = true.
Proof. vm_compute. reflexivity. Qed.

(* ===================================================================== *)
(** ** The claims *)
(* ===================================================================== *)

(** C1. When both legs of a call are recording and both recording paths
    are registered, handling the two RECORD_STOP events one after the other,
    in either order, invokes the completion callback exactly once, with the
    host and the caller and callee paths. *)
Theorem C1_completion_once_either_order
    (st : State) (a b : Session) (fa fb : string)
    (recs : gmap string string) (p_caller p_callee : string) :
  call a = call b →
  uuid a ≠ uuid b →
  peer a = Some (uuid b) →
  peer b = Some (uuid a) →
  recorded (vars_of_sess st (uuid a)) = Some false →
  recorded (vars_of_sess st (uuid b)) = Some false →
  self_call2recs (self st) !! call a = Some recs →
  recs !! "caller" = Some p_caller →
  recs !! "callee" = Some p_callee →
  truthy (self_callback (self st)) = true →
  callbacks (snd (run [RECORD_STOP a fa; RECORD_STOP b fb] st)) =
    [mkRecInfo (self_host (self st)) p_caller p_callee] ∧
  callbacks (snd (run [RECORD_STOP b fb; RECORD_STOP a fa] st)) =
    [mkRecInfo (self_host (self st)) p_caller p_callee].
Proof.
  intros Hcall Hne Hpa Hpb Ha Hb Hrecs Hcr Hce Hcb. split.
  - by apply (recstop_pair st a b fa fb recs).
  - apply (recstop_pair st b a fb fa recs); try done.
    by rewrite <- Hcall.
Qed.

Lemma C1_witness :
  callbacks (snd (run [RECORD_STOP leg_a demo_caller_path;
                       RECORD_STOP leg_b demo_callee_path] recording_state)) =
    [demo_info] ∧
  callbacks (snd (run [RECORD_STOP leg_b demo_callee_path;
                       RECORD_STOP leg_a demo_caller_path] recording_state)) =
    [demo_info].
Proof.
  apply (C1_completion_once_either_order recording_state leg_a leg_b
           demo_caller_path demo_callee_path demo_recs
           demo_caller_path demo_callee_path);
    first [ discriminate | vm_compute; reflexivity ].
Defined.

(** C2, as the code has it.  With the counter at 0 and a period of at least
    1, over any sequence of answered inbound legs the gate marks the [k]-th
    leg exactly when [k] is a multiple of the period: exactly one call in
    each consecutive window of [period] calls, and that call is the last of
    its window (the first only when the period is 1); a marked call
    has its record flag set and the counter is back at 0 right after it; an
    answer that is not marked leaves the record flag of every call as it
    was, and no answer touches the flag of another call.  Hence, when the
    legs belong to distinct calls none of which is record-enabled yet, the
    calls record-enabled in the end are exactly the marked ones.  With a
    period of 1 every call is marked. *)
Theorem C2_rate_gate_marks_last_of_window
    (period : nat) (legs : list Session) (st : State) :
  (1 ≤ period)%nat →
  self_rec_rate (self st) = Z.of_nat period →
  self_call_count (self st) = 0 →
  Forall (λ s, dir s = inbound) legs →
  (∀ k, (k < length legs)%nat →
        gate_marks legs st !! k =
          Some ((Z.of_nat k + 1) mod Z.of_nat period =? 0)) ∧
  (∀ j, ((j + 1) * period ≤ length legs)%nat →
        window period j (gate_marks legs st) =
          replicate (period - 1) false ++ [true]) ∧
  (∀ k s, legs !! k = Some s →
          gate_marks legs st !! k = Some true →
          self_call_count (self (answer_all (take (S k) legs) st)) = 0 ∧
          record_enabled (answer_all (take (S k) legs) st) (call s) = true) ∧
  (∀ k s, legs !! k = Some s →
          gate_marks legs st !! k = Some false →
          ∀ c, record (vars_of_call (answer_all (take (S k) legs) st) c) =
               record (vars_of_call (answer_all (take k legs) st) c)) ∧
  (∀ k s c, legs !! k = Some s → c ≠ call s →
          record (vars_of_call (answer_all (take (S k) legs) st) c) =
          record (vars_of_call (answer_all (take k legs) st) c)) ∧
  (NoDup (call <$> legs) →
   (∀ s, s ∈ legs → record_enabled st (call s) = false) →
   ∀ k s, legs !! k = Some s →
          record_enabled (answer_all legs st) (call s) =
            ((Z.of_nat k + 1) mod Z.of_nat period =? 0)) ∧
  (period = 1%nat → gate_marks legs st = replicate (length legs) true).
Proof.
  intros Hp Hrate Hcount Hin.
  destruct (gate_marks_from (Z.of_nat period) ltac:(lia) legs st 0
              Hrate Hcount ltac:(lia) Hin) as (Hmarks & _ & _).
  (* the store before the [k]-th answer, and what that answer does to the
     record flags *)
  assert (Hstep : ∀ k s c, legs !! k = Some s →
    record (vars_of_call (answer_all (take (S k) legs) st) c) =
      (if ((Z.of_nat k + 1) mod Z.of_nat period =? 0) && bool_decide (c = call s)
       then Some true
       else record (vars_of_call (answer_all (take k legs) st) c))).
  { intros k s c Hs.
    assert (Hlt : (k < length legs)%nat) by (by eapply lookup_lt_Some).
    rewrite (take_S_r _ _ _ Hs), answer_all_app. cbn [answer_all].
    assert (Hpre : Forall (λ s, dir s = inbound) (take k legs))
      by (by apply Forall_take).
    destruct (gate_marks_from (Z.of_nat period) ltac:(lia) (take k legs) st 0
                Hrate Hcount ltac:(lia) Hpre) as (_ & Hc & Hr).
    rewrite length_take_le in Hc by lia.
    assert (Hs' : dir s = inbound).
    { rewrite Forall_lookup in Hin. by apply (Hin k). }
    rewrite (on_answer_inbound_record _ s (Z.of_nat period) c Hs'
               ltac:(lia) Hr).
    rewrite Hc, Z.add_0_l, Zplus_mod_idemp_l. done. }
  split; [|split; [|split; [|split; [|split; [|split]]]]].
  - intros k Hk. rewrite Hmarks by done. by rewrite Z.add_0_l.
  - intros j Hj. apply list_eq. intros i.
    destruct (decide (i < period)%nat) as [Hi|Hi].
    + rewrite window_lookup, Hmarks, multiple_in_window by nia.
      case_bool_decide as Heq.
      * subst i. rewrite lookup_app_r by (rewrite length_replicate; lia).
        rewrite length_replicate. by rewrite Nat.sub_diag.
      * rewrite lookup_app_l by (rewrite length_replicate; lia).
        by rewrite lookup_replicate_2 by lia.
    + unfold window. rewrite lookup_take_ge by lia.
      symmetry. apply lookup_ge_None_2.
      rewrite length_app, length_replicate. cbn. lia.
  - intros k s Hs Hk.
    assert (Hlt : (k < length legs)%nat) by (by eapply lookup_lt_Some).
    rewrite Hmarks in Hk by done. injection Hk as Hk. apply Z.eqb_eq in Hk.
    rewrite (take_S_r _ _ _ Hs), answer_all_app. cbn [answer_all].
    assert (Hpre : Forall (λ s, dir s = inbound) (take k legs))
      by (by apply Forall_take).
    destruct (gate_marks_from (Z.of_nat period) ltac:(lia) (take k legs) st 0
                Hrate Hcount ltac:(lia) Hpre) as (_ & Hc & Hr).
    rewrite length_take_le in Hc by lia.
    assert (Hs' : dir s = inbound).
    { rewrite Forall_lookup in Hin. by apply (Hin k). }
    destruct (on_answer_inbound_gate (answer_all (take k legs) st) s
                (Z.of_nat period) Hs' ltac:(lia) Hr)
      as (_ & _ & Hcnt & _ & Hflag).
    rewrite Hc in Hcnt, Hflag.
    rewrite Zplus_mod_idemp_l in Hcnt, Hflag.
    rewrite Hk in Hcnt. split; [exact Hcnt | by apply Hflag].
  - intros k s Hs Hk c.
    assert (Hlt : (k < length legs)%nat) by (by eapply lookup_lt_Some).
    rewrite Hmarks in Hk by done. injection Hk as Hk.
    rewrite Z.add_0_l in Hk.
    by rewrite (Hstep k s c Hs), Hk.
  - intros k s c Hs Hc.
    rewrite (Hstep k s c Hs), bool_decide_eq_false_2 by done.
    by rewrite andb_false_r.
  - intros Hnd Hoff k s Hs.
    assert (Hsplit : legs = take k legs ++ s :: drop (S k) legs)
      by (symmetry; by apply take_drop_middle).
    rewrite Hsplit in Hnd. rewrite fmap_app, fmap_cons in Hnd.
    apply NoDup_app in Hnd as (_ & Hbefore & Hafter).
    apply NoDup_cons in Hafter as [Hafter _].
    assert (Hb : call s ∉ call <$> take k legs).
    { intros Hel. apply (Hbefore _ Hel). left. }
    assert (Hall : answer_all legs st =
              answer_all (drop (S k) legs) (answer_all (take (S k) legs) st)).
    { rewrite <- answer_all_app. by rewrite take_drop. }
    unfold record_enabled.
    rewrite Hall, (answer_all_record_frame _ _ _ Hafter).
    rewrite (Hstep k s (call s) Hs), bool_decide_eq_true_2 by done.
    rewrite andb_true_r.
    destruct ((Z.of_nat k + 1) mod Z.of_nat period =? 0); [done|].
    rewrite (answer_all_record_frame _ _ _ Hb).
    apply (Hoff s). by eapply list_elem_of_lookup_2.
  - intros ->. apply list_eq. intros k.
    destruct (decide (k < length legs)%nat) as [Hk|Hk].
    + rewrite Hmarks by done. rewrite lookup_replicate_2 by done.
      by rewrite Z.mod_1_r.
    + rewrite (lookup_ge_None_2 (gate_marks legs st))
        by (rewrite gate_marks_length; lia).
      symmetry. apply lookup_ge_None_2. rewrite length_replicate. lia.
Qed.

Lemma C2_witness :
  window 2 0 (gate_marks [leg_b; leg_d] (fresh (demo_app one_arg_callback 2))) =
    [false; true] ∧
  record_enabled
    (answer_all [leg_b; leg_d] (fresh (demo_app one_arg_callback 2))) "call-1" =
    false ∧
  record_enabled
    (answer_all [leg_b; leg_d] (fresh (demo_app one_arg_callback 2))) "call-2" =
    true.
Proof.
  destruct (C2_rate_gate_marks_last_of_window 2 [leg_b; leg_d]
              (fresh (demo_app one_arg_callback 2)))
    as (_ & H1 & _ & _ & _ & H5 & _);
    [lia | reflexivity | reflexivity | by repeat constructor |].
  assert (Hnd : NoDup (call <$> [leg_b; leg_d])).
  { cbn. apply NoDup_cons. split.
    - intros Hel. apply list_elem_of_singleton in Hel. discriminate.
    - apply NoDup_singleton. }
  assert (Hoff : ∀ s, s ∈ [leg_b; leg_d] →
            record_enabled (fresh (demo_app one_arg_callback 2)) (call s) =
              false).
  { intros s Hs. reflexivity. }
  split; [|split].
  - apply (H1 0%nat). cbn. lia.
  - exact (H5 Hnd Hoff 0%nat leg_b eq_refl).
  - exact (H5 Hnd Hoff 1%nat leg_d eq_refl).
Defined.

(** The claim of C2 fails for a period of 2: of the first two answered
    inbound legs the gate marks the second, not the first. *)
Lemma C2_counterexample :
  gate_marks [leg_b; leg_d] (fresh (demo_app one_arg_callback 2)) =
    [false; true] ∧
  window 2 0 (gate_marks [leg_b; leg_d] (fresh (demo_app one_arg_callback 2))) ≠
    true :: replicate 1 false.
Proof. split; [vm_compute; reflexivity | vm_compute; discriminate]. Qed.

(** C3, as the code has it.  The playback count of a call goes up by
    exactly one at each PLAYBACK_STOP of a leg whose clip tag is ['signal'],
    whatever the direction of that leg; a PLAYBACK_STOP of a leg tagged
    silence changes nothing.  No other reaction increments it: a reaction
    either leaves the count of a call as it was, or is such a PLAYBACK_STOP,
    or is the CHANNEL_ANSWER of an outbound leg of a call that is not
    recorded or the RECORD_START of an outbound leg, which reset it to 0
    through [trigger_playback] while starting the silence stream on the
    peer.  In particular PLAYBACK_START never changes it. *)
Theorem C3_playback_count_per_signal_stop (st : State) :
  (∀ sess fp n,
     clip (vars_of_sess st (uuid sess)) = Some signal →
     playback_count (vars_of_call st (call sess)) = Some n →
     playback_count
       (vars_of_call (state_after (on_stop sess fp st)) (call sess)) =
       Some (n + 1)) ∧
  (∀ sess fp,
     clip (vars_of_sess st (uuid sess)) = Some silence →
     state_after (on_stop sess fp st) = st) ∧
  (∀ e c,
     playback_count (vars_of_call (state_after (react e st)) c) =
       playback_count (vars_of_call st c) ∨
     (∃ s fp n,
        e = PLAYBACK_STOP s fp ∧ call s = c ∧
        clip (vars_of_sess st (uuid s)) = Some signal ∧
        playback_count (vars_of_call st c) = Some n ∧
        playback_count (vars_of_call (state_after (react e st)) c) =
          Some (n + 1)) ∨
     (∃ s p,
        (e = CHANNEL_ANSWER s ∧ record_enabled st c = false ∨
         ∃ fp, e = RECORD_START s fp) ∧
        dir s = outbound ∧ call s = c ∧ peer s = Some p ∧
        playback_count (vars_of_call (state_after (react e st)) c) = Some 0 ∧
        effects_of (react e st) = [Playback p (self_silence (self st))])) ∧
  (∀ s fp c,
     playback_count (vars_of_call (state_after (on_play s fp st)) c) =
       playback_count (vars_of_call st c)) ∧
  (∀ s p,
     dir s = outbound → peer s = Some p →
     (record_enabled st (call s) = false →
      playback_count (vars_of_call (state_after (on_answer s st)) (call s)) =
        Some 0) ∧
     (∀ fp,
        playback_count (vars_of_call (state_after (on_rec s fp st)) (call s)) =
          Some 0)).
Proof.
  split; [|split; [|split; [|split]]].
  - intros sess fp n. apply on_stop_signal.
  - intros sess fp Hclip. apply on_stop_not_signal. by rewrite Hclip.
  - intros e c. exact (wp_elim _ _ _ (react_playback_count_change e st c)).
  - intros s fp c.
    destruct (wp_elim _ _ _
                (react_playback_count_change (PLAYBACK_START s fp) st c))
      as [H|[(s' & fp' & n & He & _)|(s' & p & [[He _]|[fp' He]] & _)]];
      [exact H|discriminate..].
  - intros s p Hd Hp. split.
    + intros Hrec.
      destruct (on_answer_outbound_not_recording st s p Hd Hp Hrec)
        as (_ & _ & _ & _).
      unfold on_answer, trigger_playback, is_inbound, is_outbound.
      rewrite Hd. unfold_monad. cbn.
      replace (mkState (self st) (sess_vars st) (call_vars st)) with st
        by (by destruct st).
      unfold record_enabled in Hrec. rewrite Hrec, Hp. cbn.
      by rewrite vars_of_call_insert_eq.
    + intros fp. unfold on_rec, trigger_playback, is_outbound.
      rewrite Hd. unfold_monad. cbn. rewrite Hp. cbn.
      by rewrite vars_of_call_insert_eq.
Qed.

Lemma C3_witness :
  playback_count
    (vars_of_call
       (state_after (on_stop leg_a demo_audiofile playing_state)) "call-1") =
    Some 1.
Proof.
  exact (proj1 (C3_playback_count_per_signal_stop playing_state)
           leg_a demo_audiofile 0 eq_refl eq_refl).
Defined.

(** The claim of C3 fails on the flow the app itself drives:
    [trigger_playback] on the outbound leg puts silence on the inbound leg,
    whose PLAYBACK_START starts the reference clip on the outbound leg; the
    PLAYBACK_STOP that increments the count is that of the outbound leg. *)
Lemma C3_counterexample :
  orchestrated (unrecorded_flow ++ [PLAYBACK_STOP leg_a demo_audiofile])
    (fresh (demo_app one_arg_callback 2)) = true ∧
  is_inbound leg_a = false ∧
  clip (vars_of_sess playing_state (uuid leg_a)) = Some signal ∧
  playback_count (vars_of_call playing_state "call-1") = Some 0 ∧
  playback_count
    (vars_of_call
       (state_after (react (PLAYBACK_STOP leg_a demo_audiofile) playing_state))
       "call-1") = Some 1.
Proof. repeat split; vm_compute; reflexivity. Qed.




(** C5. A call whose record flag is not set never has the completion
    callback invoked: along any event sequence from a store with an empty
    registry, a reaction on a leg of such a call invokes no callback; and the
    PLAYBACK_STOP reaction whose increment reaches the iteration count
    schedules the hangup of that leg after 0.5 s. *)
Theorem C5_unrecorded_call_never_calls_back
    (st0 : State) (evs : list event) (e : event) :
  self_call2recs (self st0) = ∅ →
  let st := fst (run evs st0) in
  record_enabled st (call (session_of e)) = false →
  callbacks (effects_of (react e st)) = [] ∧
  ∀ sess fp n its,
    e = PLAYBACK_STOP sess fp →
    clip (vars_of_sess st (uuid sess)) = Some signal →
    playback_count (vars_of_call st (call sess)) = Some n →
    iterations (vars_of_call st (call sess)) = Some its →
    num_lt (Int (n + 1)) its = false →
    outcome_of (react e st) = Ok tt ∧
    effects_of (react e st) = [SchedHangup (uuid sess) (Float 0.5)].
Proof.
  intros Hempty st Hrec. split.
  - destruct (callbacks (effects_of (react e st))) as [|i l] eqn:Hcb; [done|].
    exfalso.
    assert (Hinv : recs_imply_record st)
      by (apply run_recs_imply_record, empty_registry_invariant, Hempty).
    pose proof (wp_elim _ _ _ (react_callback_needs_recs e st)) as Hneeds.
    cbn beta in Hneeds. rewrite Hcb in Hneeds.
    specialize (Hinv _ (Hneeds ltac:(done))).
    unfold record_enabled in Hrec. by rewrite Hinv in Hrec.
  - intros sess fp n its -> Hclip Hn Hits Hlt. cbn in *.
    by apply (on_stop_last_unrecorded st sess fp n its).
Qed.

Lemma C5_witness :
  callbacks (effects_of (react (PLAYBACK_STOP leg_a demo_audiofile) playing_state)) = [] ∧
  outcome_of (react (PLAYBACK_STOP leg_a demo_audiofile) playing_state) = Ok tt ∧
  effects_of (react (PLAYBACK_STOP leg_a demo_audiofile) playing_state) =
    [SchedHangup "leg-a" (Float 0.5)].
Proof.
  pose proof (C5_unrecorded_call_never_calls_back
                (fresh (demo_app one_arg_callback 2)) unrecorded_flow
                (PLAYBACK_STOP leg_a demo_audiofile) eq_refl eq_refl) as [H1 H2].
  split; [exact H1|].
  apply (H2 leg_a demo_audiofile 0 (Int 1)); vm_compute; reflexivity.
Defined.

(** C6, as the code has it.  The completion callback is never invoked with
    partial or absent paths: a RECORD_STOP reaction that invokes it found
    both paths registered.  When RECORD_STOP arrives for a leg whose call has
    no entry in [call2recs], the callback is not invoked and neither the
    registry nor any call's [vars] change; the reaction is not a no-op
    though: the leg is marked as recorded and, when its peer is not
    recording, the hangup of the leg is scheduled after 0.5 s. *)
Theorem C6_recstop_without_paths (st : State) (sess : Session) (fp : string) :
  (callbacks (effects_of (on_recstop sess fp st)) ≠ [] →
   ∃ recs cr ce,
     self_call2recs (self st) !! call sess = Some recs ∧
     recs !! "caller" = Some cr ∧ recs !! "callee" = Some ce ∧
     callbacks (effects_of (on_recstop sess fp st)) =
       [mkRecInfo (self_host (self st)) cr ce]) ∧
  (self_call2recs (self st) !! call sess = None →
   callbacks (effects_of (on_recstop sess fp st)) = [] ∧
   self (state_after (on_recstop sess fp st)) = self st ∧
   call_vars (state_after (on_recstop sess fp st)) = call_vars st ∧
   recorded (vars_of_sess (state_after (on_recstop sess fp st)) (uuid sess)) =
     Some true ∧
   (∀ p, peer sess = Some p → p ≠ uuid sess →
         default true (recorded (vars_of_sess st p)) = true →
         SchedHangup (uuid sess) (Float 0.5) ∈
           effects_of (on_recstop sess fp st))).
Proof.
  split; [exact (wp_elim _ _ _ (on_recstop_callback_paths sess fp st))|].
  intros Hnone.
  destruct (wp_elim _ _ _ (on_recstop_keeps_self sess fp st)) as [Hself Hcv].
  split; [|split; [done|split; [done|split]]].
  - destruct (callbacks (effects_of (on_recstop sess fp st))) eqn:Hcb; [done|].
    pose proof (wp_elim _ _ _
      (react_callback_needs_recs (RECORD_STOP sess fp) st)) as Hneeds.
    cbn in Hneeds. rewrite Hcb, Hnone in Hneeds.
    by destruct (Hneeds ltac:(done)).
  - unfold on_recstop. unfold_monad.
    destruct (hungup sess), (peer sess) as [p|]; cbn;
      rewrite ?vars_of_sess_insert_eq; try done.
    all: destruct (default true (recorded (vars_of_sess _ p))); cbn;
      rewrite ?Hnone; cbn; by rewrite vars_of_sess_insert_eq.
  - intros p Hp Hne Hrec. unfold on_recstop. unfold_monad. rewrite Hp.
    destruct (hungup sess); cbn;
      rewrite vars_of_sess_insert_ne by done;
      (replace (mkState (self st) (sess_vars st) (call_vars st)) with st
         by (by destruct st));
      rewrite Hrec; cbn; rewrite Hnone; cbn; set_solver.
Qed.

Lemma C6_witness :
  callbacks
    (effects_of
       (on_recstop leg_b demo_callee_path (fresh (demo_app one_arg_callback 1)))) = [] ∧
  SchedHangup "leg-b" (Float 0.5) ∈
    effects_of
      (on_recstop leg_b demo_callee_path (fresh (demo_app one_arg_callback 1))).
Proof.
  destruct (C6_recstop_without_paths (fresh (demo_app one_arg_callback 1))
              leg_b demo_callee_path) as [_ H].
  destruct (H eq_refl) as (H1 & _ & _ & _ & H2).
  split; [exact H1|].
  apply (H2 "leg-a"); [reflexivity | discriminate | reflexivity].
Defined.

(** The claim of C6 fails: with no paths registered and a peer that is not
    recording, the reaction schedules a hangup and then raises [KeyError]
    on the registry lookup instead of completing silently. *)
Lemma C6_counterexample :
  self_call2recs (self (fresh (demo_app one_arg_callback 1))) !! "call-1" = None ∧
  outcome_of
    (on_recstop leg_b demo_callee_path (fresh (demo_app one_arg_callback 1))) =
    Raised (KeyError "call-1") ∧
  effects_of
    (on_recstop leg_b demo_callee_path (fresh (demo_app one_arg_callback 1))) =
    [SchedHangup "leg-b" (Float 0.5)].
Proof. repeat split; vm_compute; reflexivity. Qed.

(** C7, as the code has it.  The RECORD_STOP reaction in which the
    completion callback fires leaves the call's entry of [call2recs] in
    place, unchanged; and no reaction of the app ever removes an entry. *)
Theorem C7_registry_entry_kept (st : State) (sess : Session) (fp : string) :
  callbacks (effects_of (on_recstop sess fp st)) ≠ [] →
  (∃ recs,
     self_call2recs (self st) !! call sess = Some recs ∧
     self_call2recs (self (state_after (on_recstop sess fp st))) !! call sess =
       Some recs) ∧
  (∀ e c recs,
     self_call2recs (self st) !! c = Some recs →
     is_Some (self_call2recs (self (state_after (react e st))) !! c)).
Proof.
  intros Hcb. split.
  - pose proof (wp_elim _ _ _
      (react_callback_needs_recs (RECORD_STOP sess fp) st) Hcb) as [recs Hr].
    destruct (wp_elim _ _ _ (on_recstop_keeps_self sess fp st)) as [Hself _].
    exists recs. cbn in Hr. by rewrite Hself.
  - intros e c recs Hc.
    destruct (wp_elim _ _ _ (react_keeps_registry e st) c recs Hc)
      as (recs' & Hr & _).
    by exists recs'.
Qed.

Lemma C7_witness :
  ∃ recs,
    self_call2recs
      (self (state_after (on_recstop leg_a demo_caller_path recording_state)))
      !! "call-1" = Some recs ∧
    self_call2recs
      (self (state_after
         (on_recstop leg_b demo_callee_path
            (state_after (on_recstop leg_a demo_caller_path recording_state)))))
      !! "call-1" = Some recs.
Proof.
  apply (C7_registry_entry_kept
           (state_after (on_recstop leg_a demo_caller_path recording_state))
           leg_b demo_callee_path).
  vm_compute. discriminate.
Defined.

(** The claim of C7 fails on the recorded flow: the second RECORD_STOP
    fires the callback and the entry of ["call-1"] is still there. *)
Lemma C7_counterexample :
  callbacks
    (effects_of
       (on_recstop leg_b demo_callee_path
          (state_after (on_recstop leg_a demo_caller_path recording_state)))) =
    [demo_info] ∧
  self_call2recs
    (self (state_after
       (on_recstop leg_b demo_callee_path
          (state_after (on_recstop leg_a demo_caller_path recording_state)))))
    !! "call-1" ≠ None.
Proof. split; vm_compute; [reflexivity | discriminate]. Qed.

(** C8, as the code has it.  [prepost] fails with an [AssertionError] when
    it is given a truthy callback that is not a function with exactly one
    positional parameter; it succeeds, with the callback stored as given,
    for a function with one positional parameter and for any falsy value
    ([None], [0], ['']).  Failing means no instance is returned, so no event
    is ever handled. *)
Theorem C8_prepost_checks_truthy_callback
    (client : Client) (filename category : string) (clip_length : num)
    (sample_rate : Z) (its : num) (callback : obj) (rec_rate : Z)
    (rec_stereo : bool) :
  (truthy callback = true →
   ¬ one_positional callback →
   ∃ msg, prepost client filename category clip_length sample_rate its
            callback rec_rate rec_stereo = Raised (AssertionError msg)) ∧
  (one_positional callback ∨ truthy callback = false →
   prepost client filename category clip_length sample_rate its
     callback rec_rate rec_stereo =
   Ok (instance client filename category clip_length sample_rate its
         callback rec_rate rec_stereo)).
Proof.
  unfold prepost, check_callback, one_positional. split.
  - intros Ht Hno. rewrite Ht.
    destruct callback as [|spec|b]; [done| |eauto].
    destruct (Nat.eqb (length (args spec)) 1) eqn:Hlen; [|eauto].
    apply Nat.eqb_eq in Hlen. destruct Hno. eauto.
  - intros [(spec & -> & Hlen)| ->]; [|done].
    cbn. apply Nat.eqb_eq in Hlen. by rewrite Hlen.
Qed.

Lemma C8_witness :
  (∃ msg, prepost_default demo_client (Object true) 1 =
            Raised (AssertionError msg)) ∧
  prepost_default demo_client one_arg_callback 1 =
    Ok (demo_app one_arg_callback 1) ∧
  prepost_default demo_client None_ 1 = Ok (demo_app None_ 1).
Proof.
  split; [|split].
  - apply (C8_prepost_checks_truthy_callback demo_client
             "ivr-founder_of_freesource.wav" "ivr" (Float 4.25) 8000 (Int 1)
             (Object true) 1 false); [reflexivity|].
    intros (spec & Hf & _). discriminate Hf.
  - apply (C8_prepost_checks_truthy_callback demo_client
             "ivr-founder_of_freesource.wav" "ivr" (Float 4.25) 8000 (Int 1)
             one_arg_callback 1 false).
    left. by exists (ArgSpec ["recinfo"] None None 0).
  - apply (C8_prepost_checks_truthy_callback demo_client
             "ivr-founder_of_freesource.wav" "ivr" (Float 4.25) 8000 (Int 1)
             None_ 1 false).
    by right.
Defined.

(** The claim of C8 fails for a falsy value that is not a function, such as
    [0] or ['']: [prepost] accepts it. *)
Lemma C8_counterexample :
  isfunction (Object false) = false ∧
  ¬ one_positional (Object false) ∧
  prepost_default demo_client (Object false) 1 =
    Ok (demo_app (Object false) 1).
Proof.
  split; [done|]. split; [|done].
  intros (spec & Hf & _). discriminate Hf.
Qed.

(** C9. [trigger_playback] on a leg starts the silence stream on its peer,
    tags the peer's clip as silence and resets the call's playback count to
    0; the PLAYBACK_START of the silence stream on the peer then tags the
    peer as silence, breaks whatever app runs on the original leg and starts
    the reference clip there.  The reference clip is thus started on the
    original leg by the reaction to the peer's silence having started, and
    not by [trigger_playback] itself.  The tag is written by the
    PLAYBACK_START reaction itself: from any store, whatever the tag of the
    peer was (none, signal or silence), it is silence afterwards, the
    [recorded] flag of the peer being kept. *)
Theorem C9_trigger_then_silence_start (st : State) (sess p : Session) :
  peer sess = Some (uuid p) →
  peer p = Some (uuid sess) →
  self_audiofile (self st) ≠ self_silence (self st) →
  outcome_of (trigger_playback sess st) = Ok tt ∧
  effects_of (trigger_playback sess st) =
    [Playback (uuid p) (self_silence (self st))] ∧
  clip (vars_of_sess (state_after (trigger_playback sess st)) (uuid p)) =
    Some silence ∧
  playback_count
    (vars_of_call (state_after (trigger_playback sess st)) (call sess)) =
    Some 0 ∧
  outcome_of
    (on_play p (self_silence (self st))
       (state_after (trigger_playback sess st))) = Ok tt ∧
  clip
    (vars_of_sess
       (state_after
          (on_play p (self_silence (self st))
             (state_after (trigger_playback sess st)))) (uuid p)) =
    Some silence ∧
  effects_of
    (on_play p (self_silence (self st))
       (state_after (trigger_playback sess st))) =
    [BreakApp (uuid sess); Playback (uuid sess) (self_audiofile (self st))] ∧
  (∀ st' : State,
     self_audiofile (self st') ≠ self_silence (self st') →
     outcome_of (on_play p (self_silence (self st')) st') = Ok tt ∧
     clip
       (vars_of_sess (state_after (on_play p (self_silence (self st')) st'))
          (uuid p)) = Some silence ∧
     recorded
       (vars_of_sess (state_after (on_play p (self_silence (self st')) st'))
          (uuid p)) = recorded (vars_of_sess st' (uuid p)) ∧
     effects_of (on_play p (self_silence (self st')) st') =
       [BreakApp (uuid sess);
        Playback (uuid sess) (self_audiofile (self st'))]).
Proof.
  intros Hp Hq Hne.
  split; [|split; [|split; [|split; [|split; [|split; [|split]]]]]].
  8: { intros st' Hne'. unfold on_play. unfold_monad. rewrite Hq.
       repeat case_decide; try congruence. cbn.
       rewrite vars_of_sess_insert_eq. repeat split; reflexivity. }
  all: unfold_reactions; unfold_monad; rewrite Hp, ?Hq; cbn.
  all: rewrite ?vars_of_sess_insert_eq, ?vars_of_call_insert_eq.
  all: repeat case_decide; try congruence; cbn.
  all: rewrite ?vars_of_sess_insert_eq; reflexivity.
Qed.

Lemma C9_witness :
  effects_of (trigger_playback leg_a (fresh (demo_app one_arg_callback 2))) =
    [Playback "leg-b" demo_silence] ∧
  effects_of
    (on_play leg_b demo_silence
       (state_after
          (trigger_playback leg_a (fresh (demo_app one_arg_callback 2))))) =
    [BreakApp "leg-a"; Playback "leg-a" demo_audiofile] ∧
  clip (vars_of_sess (fresh (demo_app one_arg_callback 2)) "leg-b") = None ∧
  clip
    (vars_of_sess
       (state_after
          (on_play leg_b demo_silence (fresh (demo_app one_arg_callback 2))))
       "leg-b") = Some silence.
Proof.
  destruct (C9_trigger_then_silence_start
              (fresh (demo_app one_arg_callback 2)) leg_a leg_b
              eq_refl eq_refl ltac:(discriminate))
    as (_ & H1 & _ & _ & _ & _ & H2 & H3).
  split; [exact H1|]. split; [exact H2|]. split; [reflexivity|].
  exact (proj1 (proj2 (H3 (fresh (demo_app one_arg_callback 2))
                         ltac:(discriminate)))).
Defined.

(** C10. The outbound CHANNEL_ANSWER branches on the call's record flag
    alone.  If the flag is set the caller leg is asked to record.  If it is
    not (the inbound CHANNEL_ANSWER has not been handled yet), the playback
    sequence is triggered, and the caller leg is never asked to record
    afterwards, whatever events follow short of a second CHANNEL_ANSWER of
    that leg, even when the inbound CHANNEL_ANSWER that follows marks the
    call for recording. *)
Theorem C10_outbound_answer_branches_on_flag
    (st : State) (o : Session) (p : string) :
  dir o = outbound →
  peer o = Some p →
  (record_enabled st (call o) = true →
     effects_of (on_answer o st) =
       [StartRecord (uuid o)
          (self_recsdir (self st) +:+ "/caller_" +:+ uuid o +:+ ".wav")
          (self_stereo (self st))]) ∧
  (record_enabled st (call o) = false →
     outcome_of (on_answer o st) = Ok tt ∧
     effects_of (on_answer o st) = [Playback p (self_silence (self st))] ∧
     (∀ evs path stereo,
        Forall (λ e, ∀ s, e = CHANNEL_ANSWER s → uuid s ≠ uuid o) evs →
        StartRecord (uuid o) path stereo ∉
          snd (run evs (state_after (on_answer o st)))) ∧
     (∀ i,
        dir i = inbound →
        call i = call o →
        int_mod (self_call_count (self st) + 1) (self_rec_rate (self st)) =
          Ok 0 →
        record_enabled
          (state_after (on_answer i (state_after (on_answer o st))))
          (call o) = true ∧
        effects_of (on_answer i (state_after (on_answer o st))) =
          [StartRecord (uuid i)
             (self_recsdir (self st) +:+ "/callee_" +:+ uuid i +:+ ".wav")
             (self_stereo (self st))])).
Proof.
  intros Hd Hp. split.
  - intros Hrec. by apply on_answer_outbound_recording.
  - intros Hrec.
    destruct (on_answer_outbound_not_recording st o p Hd Hp Hrec)
      as (Hok & Hfx & Hself & _).
    split; [done|]. split; [done|]. split.
    + intros evs path stereo Hevs. by apply run_no_start_record.
    + intros i Hi Hcall Hmod.
      destruct (on_answer_inbound_marked (state_after (on_answer o st)) i)
        as (_ & Hfx' & Hflag & _); [done|by rewrite Hself|].
      split; [by rewrite <- Hcall | by rewrite Hfx', Hself].
Qed.

Lemma C10_witness :
  effects_of (on_answer leg_a (fresh (demo_app one_arg_callback 1))) =
    [Playback "leg-b" demo_silence] ∧
  (StartRecord "leg-a" demo_caller_path false ∉
     snd (run [CHANNEL_ANSWER leg_b; RECORD_START leg_b demo_callee_path]
            (state_after (on_answer leg_a (fresh (demo_app one_arg_callback 1)))))) ∧
  effects_of
    (on_answer leg_b
       (state_after (on_answer leg_a (fresh (demo_app one_arg_callback 1))))) =
    [StartRecord "leg-b" demo_callee_path false].
Proof.
  destruct (C10_outbound_answer_branches_on_flag
              (fresh (demo_app one_arg_callback 1)) leg_a "leg-b"
              eq_refl eq_refl) as [_ H].
  destruct (H eq_refl) as (_ & H1 & H2 & H3).
  split; [exact H1|]. split.
  - apply H2. repeat constructor; intros s [= <-]; discriminate.
  - exact (proj2 (H3 leg_b eq_refl eq_refl eq_refl)).
Defined.

(* ===================================================================== *)
(** ** Further properties of the two apps *)
(* ===================================================================== *)

(** X1. Over any event sequence, [TonePlay] answers exactly the inbound legs
    that parked, plays the tone to exactly the outbound legs that parked and
    echoes exactly the inbound legs that were answered; no other event and
    no other leg gets a command. *)
Theorem X1_toneplay_commands (evs : list event) (c : TonePlay.command) :
  c ∈ TonePlay.run evs ↔
  match c with
  | TonePlay.Answer u =>
      ∃ s, CHANNEL_PARK s ∈ evs ∧ dir s = inbound ∧ uuid s = u
  | TonePlay.Broadcast u what =>
      ∃ s, CHANNEL_PARK s ∈ evs ∧ dir s = outbound ∧ uuid s = u ∧
           what = TonePlay.tone
  | TonePlay.Echo u =>
      ∃ s, CHANNEL_ANSWER s ∈ evs ∧ dir s = inbound ∧ uuid s = u
  end.
Proof.
  unfold TonePlay.run. rewrite list_elem_of_In, in_flat_map. split.
  - intros (e & He & Hc). apply list_elem_of_In in He, Hc.
    destruct e as [s|s|s|s ?|s ?|s ?|s ?]; cbn in Hc;
      try (by apply elem_of_nil in Hc).
    + unfold TonePlay.on_park, is_inbound, is_outbound in Hc.
      destruct (dir s) eqn:Hd; cbn in Hc;
        apply list_elem_of_singleton in Hc as ->; eauto 6.
    + unfold TonePlay.on_answer, is_inbound in Hc.
      destruct (dir s) eqn:Hd; cbn in Hc; [|by apply elem_of_nil in Hc].
      apply list_elem_of_singleton in Hc as ->; eauto.
  - destruct c as [u|u what|u].
    + intros (s & Hs & Hd & <-). exists (CHANNEL_PARK s).
      split; [by apply list_elem_of_In|]. apply list_elem_of_In. cbn.
      unfold TonePlay.on_park, is_inbound, is_outbound. rewrite Hd. cbn.
      apply list_elem_of_singleton. done.
    + intros (s & Hs & Hd & <- & ->). exists (CHANNEL_PARK s).
      split; [by apply list_elem_of_In|]. apply list_elem_of_In. cbn.
      unfold TonePlay.on_park, is_inbound, is_outbound. rewrite Hd. cbn.
      apply list_elem_of_singleton. done.
    + intros (s & Hs & Hd & <-). exists (CHANNEL_ANSWER s).
      split; [by apply list_elem_of_In|]. apply list_elem_of_In. cbn.
      unfold TonePlay.on_answer, is_inbound. rewrite Hd.
      apply list_elem_of_singleton. done.
Qed.

(** X2. A reaction only ever commands the session of its event or the peer
    of that session: no leg outside the call is sent a command. *)
Theorem X2_commands_stay_in_call (e : event) (st : State) (c : effect)
    (u : string) :
  c ∈ effects_of (react e st) →
  target c = Some u →
  u = uuid (session_of e) ∨ peer (session_of e) = Some u.
Proof.
  revert c u.
  assert (H : wp (react e) st (λ _ _ fx,
    ∀ c u, c ∈ fx → target c = Some u →
      u = uuid (session_of e) ∨ peer (session_of e) = Some u)); [|exact H].
  wp_event e; intros cmd tgt Hin Ht; cbn in *;
    repeat (apply elem_of_cons in Hin as [->|Hin];
            [cbn in Ht; simplify_eq; eauto|]);
    by apply elem_of_nil in Hin.
Qed.

Lemma X2_witness :
  "leg-b" = uuid (session_of (CHANNEL_ANSWER leg_a)) ∨
  peer (session_of (CHANNEL_ANSWER leg_a)) = Some "leg-b".
Proof.
  apply (X2_commands_stay_in_call (CHANNEL_ANSWER leg_a)
           (fresh (demo_app one_arg_callback 2))
           (Playback "leg-b" demo_silence) "leg-b").
  - vm_compute. apply list_elem_of_singleton. reflexivity.
  - reflexivity.
Defined.

(** X3. Where each command comes from: a leg is answered only by the
    CHANNEL_PARK reaction of an inbound leg; a hangup is scheduled, always
    0.5 s ahead, only by the PLAYBACK_STOP or RECORD_STOP reaction of the leg
    itself; recordings are stopped only by a PLAYBACK_STOP reaction; the
    callback is invoked only by a RECORD_STOP reaction. *)
Theorem X3_command_origins (e : event) (st : State) (c : effect) :
  c ∈ effects_of (react e st) →
  match c with
  | Answer u => ∃ s, e = CHANNEL_PARK s ∧ dir s = inbound ∧ uuid s = u
  | SchedHangup u d =>
      d = Float 0.5 ∧ uuid (session_of e) = u ∧
      ((∃ s fp, e = PLAYBACK_STOP s fp) ∨ (∃ s fp, e = RECORD_STOP s fp))
  | StopRecord u d => ∃ s fp, e = PLAYBACK_STOP s fp
  | Callback info => ∃ s fp, e = RECORD_STOP s fp
  | LogWarn u => ∃ s fp, e = RECORD_STOP s fp ∧ hungup s = true ∧ uuid s = u
  | _ => True
  end.
Proof.
  revert c.
  assert (H : wp (react e) st (λ _ _ fx,
    ∀ c, c ∈ fx →
      match c with
      | Answer u => ∃ s, e = CHANNEL_PARK s ∧ dir s = inbound ∧ uuid s = u
      | SchedHangup u d =>
          d = Float 0.5 ∧ uuid (session_of e) = u ∧
          ((∃ s fp, e = PLAYBACK_STOP s fp) ∨ (∃ s fp, e = RECORD_STOP s fp))
      | StopRecord u d => ∃ s fp, e = PLAYBACK_STOP s fp
      | Callback info => ∃ s fp, e = RECORD_STOP s fp
      | LogWarn u =>
          ∃ s fp, e = RECORD_STOP s fp ∧ hungup s = true ∧ uuid s = u
      | _ => True
      end)); [|exact H].
  wp_event e; intros cmd Hin; cbn in *;
    repeat (apply elem_of_cons in Hin as [->|Hin]; [cbn; eauto 8|]);
    by apply elem_of_nil in Hin.
Qed.

Lemma X3_witness :
  Float 0.5 = Float 0.5 ∧
  uuid (session_of (PLAYBACK_STOP leg_a demo_audiofile)) = "leg-a" ∧
  ((∃ s fp, PLAYBACK_STOP leg_a demo_audiofile = PLAYBACK_STOP s fp) ∨
   (∃ s fp, PLAYBACK_STOP leg_a demo_audiofile = RECORD_STOP s fp)).
Proof.
  apply (X3_command_origins (PLAYBACK_STOP leg_a demo_audiofile)
           playing_state (SchedHangup "leg-a" (Float 0.5))).
  vm_compute. apply list_elem_of_singleton. reflexivity.
Defined.

(** X4. Calls do not interfere: a reaction leaves the [vars] and the
    registry entry of every call other than the call of its event as they
    were, and the [vars] of every session other than the event's session and
    its peer. *)
Theorem X4_other_calls_untouched (e : event) (st : State) :
  (∀ c, c ≠ call (session_of e) →
        vars_of_call (state_after (react e st)) c = vars_of_call st c ∧
        self_call2recs (self (state_after (react e st))) !! c =
          self_call2recs (self st) !! c) ∧
  (∀ u, u ≠ uuid (session_of e) → peer (session_of e) ≠ Some u →
        vars_of_sess (state_after (react e st)) u = vars_of_sess st u).
Proof.
  assert (H : wp (react e) st (λ _ st' _,
    (∀ c, c ≠ call (session_of e) →
          vars_of_call st' c = vars_of_call st c ∧
          self_call2recs (self st') !! c = self_call2recs (self st) !! c) ∧
    (∀ u, u ≠ uuid (session_of e) → peer (session_of e) ≠ Some u →
          vars_of_sess st' u = vars_of_sess st u))); [|exact H].
  wp_event e; (split; [intros cid Hc | intros sid Hu Hp]);
    map_cases; try done; try congruence.
Qed.

(** X5. The two call flags are sticky: once ['noautohangup'] or ['record']
    is set on a call, no sequence of events unsets it.  ['noautohangup'] is
    set by the CHANNEL_CREATE of an outbound leg. *)
Theorem X5_call_flags_sticky (evs : list event) (st : State) (c : string) :
  (noautohangup (vars_of_call st c) = Some true →
   noautohangup (vars_of_call (fst (run evs st)) c) = Some true) ∧
  (record (vars_of_call st c) = Some true →
   record (vars_of_call (fst (run evs st)) c) = Some true) ∧
  (∀ s, dir s = outbound →
        noautohangup
          (vars_of_call (state_after (react (CHANNEL_CREATE s) st)) (call s)) =
          Some true).
Proof.
  assert (Hstep : ∀ e st0, wp (react e) st0 (λ _ st' _,
    (noautohangup (vars_of_call st0 c) = Some true →
     noautohangup (vars_of_call st' c) = Some true) ∧
    (record (vars_of_call st0 c) = Some true →
     record (vars_of_call st' c) = Some true))).
  { intros e st0. wp_event e; split; intros Hflag; map_cases; done. }
  split; [|split].
  - revert st. induction evs as [|e evs IH]; intros st Hf; [done|].
    cbn. specialize (IH (state_after (react e st))
                       (proj1 (wp_elim _ _ _ (Hstep e st)) Hf)).
    by destruct (run evs (state_after (react e st))).
  - revert st. induction evs as [|e evs IH]; intros st Hf; [done|].
    cbn. specialize (IH (state_after (react e st))
                       (proj2 (wp_elim _ _ _ (Hstep e st)) Hf)).
    by destruct (run evs (state_after (react e st))).
  - intros s Hd. cbn. unfold on_create, is_outbound. rewrite Hd.
    unfold_monad. cbn. by rewrite vars_of_call_insert_eq.
Qed.

Lemma X5_witness :
  record
    (vars_of_call
       (fst (run [RECORD_STOP leg_a demo_caller_path;
                  RECORD_STOP leg_b demo_callee_path] recording_state))
       "call-1") = Some true.
Proof.
  apply (X5_call_flags_sticky
           [RECORD_STOP leg_a demo_caller_path;
            RECORD_STOP leg_b demo_callee_path] recording_state "call-1").
  vm_compute. reflexivity.
Defined.

Lemma react_record_has_callee e st :
  record_has_callee st →
  wp (react e) st (λ _ st' _, record_has_callee st').
Proof.
  intros Hinv.
  wp_event e; try done.
  all: intros cid Hc; specialize (Hinv cid); map_cases; try done;
    try (by apply Hinv).
  all: try (by eexists; split; [done|]; rewrite lookup_insert;
            case_decide; eauto).
  all: apply default_false_true in Heqb;
    destruct (Hinv Heqb) as (recs & Hr & Hce); rewrite Hr; cbn;
    eexists; split; [done|]; rewrite lookup_insert;
    by case_decide; eauto.
Qed.

Lemma fresh_pristine (a : PlayRec) :
  self_call2recs a = ∅ → pristine (fresh a).
Proof.
  intros Ha. split; [done|]. intros c. unfold vars_of_call, fresh. cbn.
  by rewrite lookup_empty.
Qed.

Lemma run_record_has_callee evs st :
  record_has_callee st → record_has_callee (fst (run evs st)).
Proof.
  revert st. induction evs as [|e evs IH]; intros st Hinv; [done|].
  cbn. pose proof (wp_elim _ _ _ (react_record_has_callee e st Hinv)) as H.
  specialize (IH _ H). by destruct (run evs (state_after (react e st))).
Qed.

(** X6. Starting from a store where no call is marked and nothing is
    registered, after any sequence of events a call is record-enabled
    exactly when it has an entry in [call2recs], and every entry holds a
    callee path: the only path that can be missing when the callback is
    built is the caller's. *)
Theorem X6_registry_matches_record_flag
    (st0 : State) (evs : list event) (c : string) :
  pristine st0 →
  (record (vars_of_call (fst (run evs st0)) c) = Some true ↔
   is_Some (self_call2recs (self (fst (run evs st0))) !! c)) ∧
  (∀ recs, self_call2recs (self (fst (run evs st0))) !! c = Some recs →
           is_Some (recs !! "callee")).
Proof.
  intros [Hreg Hflags].
  assert (H1 : recs_imply_record (fst (run evs st0)))
    by (by apply run_recs_imply_record, empty_registry_invariant).
  assert (H2 : record_has_callee (fst (run evs st0))).
  { apply run_record_has_callee. intros c' Hc'. by rewrite Hflags in Hc'. }
  split; [split|].
  - intros Hrec. destruct (H2 c Hrec) as (recs & Hr & _). by exists recs.
  - apply H1.
  - intros recs Hr. destruct (H2 c (H1 c ltac:(by exists recs)))
      as (recs' & Hr' & Hce). by simplify_eq.
Qed.

Lemma X6_witness :
  (record (vars_of_call recording_state "call-1") = Some true ↔
   is_Some (self_call2recs (self recording_state) !! "call-1")) ∧
  (∀ recs, self_call2recs (self recording_state) !! "call-1" = Some recs →
           is_Some (recs !! "callee")).
Proof.
  apply (X6_registry_matches_record_flag
           (fresh (demo_app one_arg_callback 1)) recorded_flow "call-1").
  apply fresh_pristine. reflexivity.
Defined.

Lemma react_call_count_frame e st :
  wp (react e) st (λ _ st' _,
    self_rec_rate (self st') = self_rec_rate (self st) ∧
    ((∀ s, e = CHANNEL_ANSWER s → dir s = outbound) →
     self_call_count (self st') = self_call_count (self st))).
Proof.
  wp_event e; (split; [done|]); intros Hout; try done.
  all: by specialize (Hout _ eq_refl).
Qed.

(** X7. The rate counter counts answered inbound legs and nothing else:
    with a rate of at least 1 and a counter below it, after any sequence of
    events, of any calls and in any interleaving, the counter is the number
    of inbound CHANNEL_ANSWER events so far modulo the rate, and the rate is
    unchanged. *)
Theorem X7_counter_counts_inbound_answers (evs : list event) (st : State) :
  1 ≤ self_rec_rate (self st) →
  0 ≤ self_call_count (self st) < self_rec_rate (self st) →
  self_call_count (self (fst (run evs st))) =
    (self_call_count (self st) + Z.of_nat (inbound_answers evs))
      mod self_rec_rate (self st) ∧
  self_rec_rate (self (fst (run evs st))) = self_rec_rate (self st).
Proof.
  revert st. induction evs as [|e evs IH]; intros st Hrate Hcount.
  - cbn. rewrite Z.add_0_r, Z.mod_small by lia. done.
  - destruct (wp_elim _ _ _ (react_call_count_frame e st)) as [Hr Hframe].
    assert (Hstep :
      self_call_count (self (state_after (react e st))) =
      (self_call_count (self st) +
       match e with
       | CHANNEL_ANSWER s => if is_inbound s then 1 else 0
       | _ => 0
       end) mod self_rec_rate (self st)).
    { destruct e as [s|s|s|s ?|s ?|s ?|s ?];
        try (rewrite Hframe by (intros ? [=]);
             rewrite Z.add_0_r, Z.mod_small by lia; done).
      unfold is_inbound. destruct (dir s) eqn:Hd.
      - destruct (on_answer_inbound_gate st s (self_rec_rate (self st)) Hd
                    ltac:(lia) eq_refl)
          as (_ & _ & Hcnt & _).
        cbn [react]. rewrite Hcnt. by apply counter_step.
      - rewrite Hframe by (by intros ? [= <-]).
        rewrite Z.add_0_r, Z.mod_small by lia. done. }
    destruct (IH (state_after (react e st))) as [IHc IHr].
    { by rewrite Hr. }
    { rewrite Hr, Hstep. apply Z.mod_pos_bound. lia. }
    cbn [run]. destruct (run evs (state_after (react e st))) as [st' fx].
    cbn [fst] in *. rewrite IHc, IHr, Hr, Hstep. split; [|done].
    rewrite Zplus_mod_idemp_l. f_equal.
    destruct e as [s|s|s|s ?|s ?|s ?|s ?]; cbn [inbound_answers]; try lia.
    destruct (is_inbound s); lia.
Qed.

Lemma X7_witness :
  self_call_count (self recording_state) =
    (0 + Z.of_nat (inbound_answers recorded_flow)) mod 1 ∧
  self_rec_rate (self recording_state) = 1.
Proof.
  apply (X7_counter_counts_inbound_answers recorded_flow
           (fresh (demo_app one_arg_callback 1))); cbn; lia.
Defined.

(** X8. With a recording rate of 0 the CHANNEL_ANSWER of an inbound leg
    raises [ZeroDivisionError] at [count % rate]: the counter has already
    been incremented, but no recording is started, and neither the record
    flag nor the call's ['iterations'] and ['tail'] are set. *)
Theorem X8_zero_rate_answer (st : State) (i : Session) :
  dir i = inbound →
  self_rec_rate (self st) = 0 →
  outcome_of (on_answer i st) = Raised ZeroDivisionError ∧
  effects_of (on_answer i st) = [] ∧
  self_call_count (self (state_after (on_answer i st))) =
    self_call_count (self st) + 1 ∧
  self_call2recs (self (state_after (on_answer i st))) =
    self_call2recs (self st) ∧
  call_vars (state_after (on_answer i st)) = call_vars st ∧
  sess_vars (state_after (on_answer i st)) = sess_vars st.
Proof.
  intros Hd Hrate.
  unfold on_answer, is_inbound, is_outbound. rewrite Hd. unfold_monad. cbn.
  rewrite Hrate. unfold int_mod. cbn. done.
Qed.

Lemma X8_witness :
  outcome_of (on_answer leg_b (fresh (demo_app one_arg_callback 0))) =
    Raised ZeroDivisionError ∧
  self_call_count
    (self (state_after (on_answer leg_b (fresh (demo_app one_arg_callback 0))))) =
    1.
Proof.
  destruct (X8_zero_rate_answer (fresh (demo_app one_arg_callback 0)) leg_b
              eq_refl eq_refl) as (H1 & _ & H2 & _).
  split; [exact H1 | exact H2].
Defined.

(** X9. PLAYBACK_STOP on missing keys.  Without a clip tag on the session,
    or with the tag ['signal'] but no playback count on the call, the
    reaction raises [KeyError] and changes nothing.  With a count but no
    ['iterations'] (the outbound leg answered and played before the inbound
    answer), or on the last play of a recorded call without ['tail'], it
    raises [KeyError] after the count has been incremented: the increment
    stays. No command is issued in any of these cases. *)
Theorem X9_playback_stop_missing_keys (st : State) (sess : Session)
    (fp : string) :
  (clip (vars_of_sess st (uuid sess)) = None →
   on_stop sess fp st = (Raised (KeyError "clip"), st, [])) ∧
  (clip (vars_of_sess st (uuid sess)) = Some signal →
   playback_count (vars_of_call st (call sess)) = None →
   on_stop sess fp st = (Raised (KeyError "playback_count"), st, [])) ∧
  (∀ n,
     clip (vars_of_sess st (uuid sess)) = Some signal →
     playback_count (vars_of_call st (call sess)) = Some n →
     iterations (vars_of_call st (call sess)) = None →
     outcome_of (on_stop sess fp st) = Raised (KeyError "iterations") ∧
     effects_of (on_stop sess fp st) = [] ∧
     playback_count
       (vars_of_call (state_after (on_stop sess fp st)) (call sess)) =
       Some (n + 1)) ∧
  (∀ n its,
     clip (vars_of_sess st (uuid sess)) = Some signal →
     playback_count (vars_of_call st (call sess)) = Some n →
     iterations (vars_of_call st (call sess)) = Some its →
     num_lt (Int (n + 1)) its = false →
     record_enabled st (call sess) = true →
     tail (vars_of_call st (call sess)) = None →
     outcome_of (on_stop sess fp st) = Raised (KeyError "tail") ∧
     effects_of (on_stop sess fp st) = [] ∧
     playback_count
       (vars_of_call (state_after (on_stop sess fp st)) (call sess)) =
       Some (n + 1)).
Proof.
  unfold record_enabled.
  split; [|split; [|split]].
  - intros Hclip. unfold on_stop. unfold_monad. by rewrite Hclip.
  - intros Hclip Hn. unfold on_stop. unfold_monad. rewrite Hclip. cbn.
    by rewrite Hn.
  - intros n Hclip Hn Hits. unfold on_stop. unfold_monad. rewrite Hclip. cbn.
    rewrite Hn. cbn. rewrite Hits. cbn. by rewrite vars_of_call_insert_eq.
  - intros n its Hclip Hn Hits Hlt Hrec Htail. unfold on_stop. unfold_monad.
    rewrite Hclip. cbn. rewrite Hn. cbn. rewrite Hits. cbn.
    rewrite Hlt, Hrec, Htail. cbn. by rewrite vars_of_call_insert_eq.
Qed.

Lemma X9_witness :
  on_stop leg_a demo_audiofile (fresh (demo_app one_arg_callback 1)) =
    (Raised (KeyError "clip"), fresh (demo_app one_arg_callback 1), []).
Proof.
  apply (X9_playback_stop_missing_keys (fresh (demo_app one_arg_callback 1))
           leg_a demo_audiofile).
  reflexivity.
Defined.

(** X10. PLAYBACK_STOP of the reference clip, the two branches the claims
    leave out.  While the incremented count is below the iteration count the
    leg itself is told to play the silence stream, recorded or not.  On the
    last play of a recorded call both recordings are told to stop after the
    call's tail, the peer's app is broken in between, and no hangup is
    scheduled. *)
Theorem X10_playback_stop_loop_and_recorded_end (st : State) (sess : Session)
    (fp : string) (n : Z) (its : num) :
  clip (vars_of_sess st (uuid sess)) = Some signal →
  playback_count (vars_of_call st (call sess)) = Some n →
  iterations (vars_of_call st (call sess)) = Some its →
  (num_lt (Int (n + 1)) its = true →
   outcome_of (on_stop sess fp st) = Ok tt ∧
   effects_of (on_stop sess fp st) =
     [Playback (uuid sess) (self_silence (self st))]) ∧
  (∀ tl p,
     num_lt (Int (n + 1)) its = false →
     record_enabled st (call sess) = true →
     tail (vars_of_call st (call sess)) = Some tl →
     peer sess = Some p →
     outcome_of (on_stop sess fp st) = Ok tt ∧
     effects_of (on_stop sess fp st) =
       [StopRecord (uuid sess) tl; BreakApp p; StopRecord p tl] ∧
     playback_count
       (vars_of_call (state_after (on_stop sess fp st)) (call sess)) =
       Some (n + 1)).
Proof.
  intros Hclip Hn Hits. unfold record_enabled. split.
  - intros Hlt. unfold on_stop. unfold_monad. rewrite Hclip. cbn.
    rewrite Hn. cbn. rewrite Hits. cbn. by rewrite Hlt.
  - intros tl p Hlt Hrec Htail Hp. unfold on_stop. unfold_monad.
    rewrite Hclip. cbn. rewrite Hn. cbn. rewrite Hits. cbn.
    rewrite Hlt, Hrec, Htail. cbn. rewrite Hp. cbn.
    by rewrite vars_of_call_insert_eq.
Qed.

Lemma X10_witness :
  effects_of (on_stop leg_a demo_audiofile last_play_state) =
    [StopRecord "leg-a" (Float 1); BreakApp "leg-b";
     StopRecord "leg-b" (Float 1)].
Proof.
  destruct (X10_playback_stop_loop_and_recorded_end last_play_state leg_a
              demo_audiofile 0 (Int 1) eq_refl eq_refl eq_refl) as [_ H].
  destruct (H (Float 1) "leg-b" eq_refl eq_refl eq_refl eq_refl)
    as (_ & Hfx & _).
  exact Hfx.
Defined.

(** *** The playback loop *)

Lemma callbacks_app l1 l2 : callbacks (l1 ++ l2) = callbacks l1 ++ callbacks l2.
Proof. induction l1 as [|[] l1 IH]; cbn; rewrite ?IH; done. Qed.

Lemma hangups_app l1 l2 : hangups (l1 ++ l2) = hangups l1 ++ hangups l2.
Proof. induction l1 as [|[] l1 IH]; cbn; rewrite ?IH; done. Qed.

Lemma playbacks_of_app w l1 l2 :
  playbacks_of w (l1 ++ l2) = (playbacks_of w l1 + playbacks_of w l2)%nat.
Proof. induction l1 as [|[] l1 IH]; cbn; rewrite ?IH; lia. Qed.

Lemma run_app evs1 evs2 st :
  run (evs1 ++ evs2) st =
  (fst (run evs2 (fst (run evs1 st))),
   snd (run evs1 st) ++ snd (run evs2 (fst (run evs1 st)))).
Proof.
  revert st. induction evs1 as [|e evs1 IH]; intros st; cbn.
  - by destruct (run evs2 st).
  - rewrite IH. destruct (run evs1 (state_after (react e st))); cbn.
    by rewrite app_assoc.
Qed.

(** One round on an unrecorded call *)
Lemma round_run st x y k N :
  call x = call y →
  uuid x ≠ uuid y →
  peer x = Some (uuid y) →
  self_audiofile (self st) ≠ self_silence (self st) →
  playback_count (vars_of_call st (call y)) = Some k →
  iterations (vars_of_call st (call y)) = Some (Int N) →
  record_enabled st (call y) = false →
  self (fst (run (round (self st) x y) st)) = self st ∧
  playback_count (vars_of_call (fst (run (round (self st) x y) st)) (call y)) =
    Some (k + 1) ∧
  iterations (vars_of_call (fst (run (round (self st) x y) st)) (call y)) =
    Some (Int N) ∧
  record_enabled (fst (run (round (self st) x y) st)) (call y) = false ∧
  snd (run (round (self st) x y) st) =
    [BreakApp (uuid y); Playback (uuid y) (self_audiofile (self st));
     if k + 1 <? N then Playback (uuid y) (self_silence (self st))
     else SchedHangup (uuid y) (Float 0.5)].
Proof.
  destruct x as [ux cx dx hx px], y as [uy cy dy hy py]. cbn.
  intros -> Hne -> Hfiles Hk Hits Hrec. unfold record_enabled in *.
  unfold round. cbn [run react]. unfold on_play, on_stop. unfold_monad. cbn.
  destruct (decide (self_silence (self st) = self_audiofile (self st)))
    as [Heq|_]; [by destruct Hfiles|].
  destruct (decide (self_silence (self st) = self_silence (self st)))
    as [_|Hn]; [|done]. cbn.
  destruct (decide (self_audiofile (self st) = self_audiofile (self st)))
    as [_|Hn]; [|done]. cbn.
  rewrite vars_of_sess_insert_eq. cbn.
  unfold vars_of_call in *. cbn. rewrite Hk. cbn. rewrite Hits. cbn.
  unfold num_lt.
  destruct (k + 1 <? N) eqn:Hlt; cbn; [|rewrite Hrec; cbn];
    rewrite lookup_insert_eq; cbn; done.
Qed.

Lemma rounds_run n : ∀ st x y c k N,
  call x = c → call y = c →
  uuid x ≠ uuid y →
  peer x = Some (uuid y) → peer y = Some (uuid x) →
  self_audiofile (self st) ≠ self_silence (self st) →
  playback_count (vars_of_call st c) = Some k →
  iterations (vars_of_call st c) = Some (Int N) →
  record_enabled st c = false →
  k + Z.of_nat n ≤ N →
  self (fst (run (rounds (self st) n x y) st)) = self st ∧
  playback_count (vars_of_call (fst (run (rounds (self st) n x y) st)) c) =
    Some (k + Z.of_nat n) ∧
  playbacks_of (self_audiofile (self st))
    (snd (run (rounds (self st) n x y) st)) = n ∧
  callbacks (snd (run (rounds (self st) n x y) st)) = [] ∧
  hangups (snd (run (rounds (self st) n x y) st)) =
    if (0 <? n)%nat && (k + Z.of_nat n =? N)
    then [(uuid (if Nat.even n then x else y), Float 0.5)] else [].
Proof.
  induction n as [|n IH]; intros st x y c k N Hx Hy Hne Hpx Hpy Hfiles Hk Hits
    Hrec Hle.
  - cbn. rewrite Z.add_0_r. done.
  - cbn [rounds]. rewrite run_app. cbn [fst snd].
    destruct (round_run st x y k N) as (Hself & Hk1 & Hits1 & Hrec1 & Hfx);
      try done; try (by rewrite Hy); try congruence.
    rewrite Hy in Hk1, Hits1, Hrec1.
    set (st1 := fst (run (round (self st) x y) st)) in *.
    destruct (IH st1 y x c (k + 1) N) as (IHs & IHk & IHp & IHc & IHh);
      try done; try (by rewrite Hself); try lia.
    rewrite Hself in IHs, IHk, IHp, IHc, IHh.
    rewrite IHs, IHk.
    rewrite playbacks_of_app, callbacks_app, hangups_app.
    rewrite IHp, IHc, IHh. rewrite Hfx.
    assert (Hsil : String.eqb (self_silence (self st))
                     (self_audiofile (self st)) = false)
      by (apply String.eqb_neq; congruence).
    split; [done|]. split; [f_equal; lia|]. split; [|split].
    + cbn. rewrite String.eqb_refl.
      destruct (k + 1 <? N); cbn; rewrite ?Hsil; lia.
    + by destruct (k + 1 <? N).
    + rewrite Nat.even_succ, <- Nat.negb_even.
      replace (0 <? S n)%nat with true by done. cbn [andb].
      destruct n as [|n'].
      * replace (k + Z.of_nat 1) with (k + 1) by lia.
        destruct (Z.ltb_spec (k + 1) N), (Z.eqb_spec (k + 1) N); cbn;
          try done; lia.
      * replace (0 <? S n')%nat with true by done. cbn [andb].
        replace (k + 1 + Z.of_nat (S n') =? N)
          with (k + Z.of_nat (S (S n')) =? N) by (f_equal; lia).
        destruct (Z.ltb_spec (k + 1) N); [|lia]. cbn [hangups app].
        by destruct (Nat.even (S n')).
Qed.

(** X11. The playback loop of an unrecorded call.  From a playback count of
    0 and an iteration count of [n >= 1], [n] rounds of "silence starts on
    one leg, the clip starts on the other and plays to its end" ask for the
    reference clip exactly [n] times, the legs swapping roles at every round,
    leave the count at [n], invoke no callback and schedule exactly one
    hangup, 0.5 s ahead, on the leg that played last; no hangup is scheduled
    before the last round. *)
Theorem X11_playback_loop (st : State) (x y : Session) (c : string) (n : nat) :
  call x = c → call y = c →
  uuid x ≠ uuid y →
  peer x = Some (uuid y) → peer y = Some (uuid x) →
  self_audiofile (self st) ≠ self_silence (self st) →
  playback_count (vars_of_call st c) = Some 0 →
  iterations (vars_of_call st c) = Some (Int (Z.of_nat n)) →
  record_enabled st c = false →
  (1 ≤ n)%nat →
  playback_count (vars_of_call (fst (run (rounds (self st) n x y) st)) c) =
    Some (Z.of_nat n) ∧
  playbacks_of (self_audiofile (self st))
    (snd (run (rounds (self st) n x y) st)) = n ∧
  callbacks (snd (run (rounds (self st) n x y) st)) = [] ∧
  hangups (snd (run (rounds (self st) n x y) st)) =
    [(uuid (if Nat.even n then x else y), Float 0.5)] ∧
  (∀ m, (m < n)%nat →
        hangups (snd (run (rounds (self st) m x y) st)) = []).
Proof.
  intros Hx Hy Hne Hpx Hpy Hfiles Hk Hits Hrec Hn.
  destruct (rounds_run n st x y c 0 (Z.of_nat n))
    as (_ & Hcount & Hplays & Hcb & Hh); try done; try lia.
  split; [by rewrite Hcount|]. split; [done|]. split; [done|]. split.
  - rewrite Hh. replace (0 <? n)%nat with true
      by (symmetry; apply Nat.ltb_lt; lia).
    by rewrite Z.add_0_l, Z.eqb_refl.
  - intros m Hm.
    destruct (rounds_run m st x y c 0 (Z.of_nat n))
      as (_ & _ & _ & _ & Hhm); try done; try lia.
    rewrite Hhm. replace (0 + Z.of_nat m =? Z.of_nat n) with false
      by (symmetry; apply Z.eqb_neq; lia).
    by rewrite andb_false_r.
Qed.

Lemma X11_witness :
  playbacks_of demo_audiofile
    (snd (run (rounds three_plays_app 3 leg_b leg_a) loop_start_state)) = 3%nat ∧
  hangups (snd (run (rounds three_plays_app 3 leg_b leg_a) loop_start_state)) =
    [("leg-a", Float 0.5)].
Proof.
  destruct (X11_playback_loop loop_start_state leg_b leg_a "call-1" 3)
    as (_ & H1 & _ & H2 & _).
  - reflexivity.
  - reflexivity.
  - discriminate.
  - reflexivity.
  - reflexivity.
  - vm_compute. discriminate.
  - vm_compute. reflexivity.
  - vm_compute. reflexivity.
  - vm_compute. reflexivity.
  - lia.
  - split; [exact H1 | exact H2].
Defined.

(** X12. PLAYBACK_START never touches the instance or any call's [vars],
    and keeps the ['recorded'] flag of the session; for a file that is
    neither the reference clip nor the silence stream it does nothing at
    all, and for the reference clip it only tags the session ['signal']. *)
Theorem X12_playback_start_frame (st : State) (sess : Session) (fp : string) :
  self (state_after (on_play sess fp st)) = self st ∧
  call_vars (state_after (on_play sess fp st)) = call_vars st ∧
  recorded (vars_of_sess (state_after (on_play sess fp st)) (uuid sess)) =
    recorded (vars_of_sess st (uuid sess)) ∧
  (fp ≠ self_audiofile (self st) → fp ≠ self_silence (self st) →
   on_play sess fp st = (Ok tt, st, [])) ∧
  (fp = self_audiofile (self st) →
   outcome_of (on_play sess fp st) = Ok tt ∧
   effects_of (on_play sess fp st) = [] ∧
   clip (vars_of_sess (state_after (on_play sess fp st)) (uuid sess)) =
     Some signal).
Proof.
  unfold on_play. unfold_monad.
  destruct (decide (fp = self_audiofile (self st))) as [Ha|Ha];
    [|destruct (decide (fp = self_silence (self st))) as [Hs|Hs]]; cbn.
  - rewrite vars_of_sess_insert_eq. repeat split; done.
  - destruct (peer sess); cbn; rewrite vars_of_sess_insert_eq;
      repeat split; done.
  - repeat split; done.
Qed.

(** X13. A leg without a peer.  [get_peer] failing stops the reaction where
    it stands: [trigger_playback] has changed and issued nothing; RECORD_START
    of an outbound leg has marked the leg as recording and nothing more;
    PLAYBACK_START of the silence stream has tagged the leg and issued
    nothing; RECORD_STOP has marked the leg as recorded and scheduled no
    hangup and invoked no callback. *)
Theorem X13_missing_peer (st : State) (sess : Session) (fp : string) :
  peer sess = None →
  trigger_playback sess st = (Raised NotBridged, st, []) ∧
  (dir sess = outbound →
   outcome_of (on_rec sess fp st) = Raised NotBridged ∧
   effects_of (on_rec sess fp st) = [] ∧
   recorded (vars_of_sess (state_after (on_rec sess fp st)) (uuid sess)) =
     Some false ∧
   call_vars (state_after (on_rec sess fp st)) = call_vars st) ∧
  (self_audiofile (self st) ≠ self_silence (self st) →
   outcome_of (on_play sess (self_silence (self st)) st) = Raised NotBridged ∧
   effects_of (on_play sess (self_silence (self st)) st) = [] ∧
   clip (vars_of_sess
           (state_after (on_play sess (self_silence (self st)) st))
           (uuid sess)) = Some silence) ∧
  (outcome_of (on_recstop sess fp st) = Raised NotBridged ∧
   hangups (effects_of (on_recstop sess fp st)) = [] ∧
   callbacks (effects_of (on_recstop sess fp st)) = [] ∧
   recorded (vars_of_sess (state_after (on_recstop sess fp st)) (uuid sess)) =
     Some true).
Proof.
  intros Hp. split; [|split; [|split]].
  - unfold trigger_playback. unfold_monad. by rewrite Hp.
  - intros Hd. unfold on_rec, trigger_playback, is_outbound. rewrite Hd.
    unfold_monad. rewrite Hp. cbn. by rewrite vars_of_sess_insert_eq.
  - intros Hfiles. unfold on_play. unfold_monad.
    destruct (decide (self_silence (self st) = self_audiofile (self st)));
      [congruence|].
    destruct (decide (self_silence (self st) = self_silence (self st)));
      [|done].
    cbn. rewrite Hp. cbn. by rewrite vars_of_sess_insert_eq.
  - unfold on_recstop. unfold_monad. rewrite Hp.
    destruct (hungup sess); cbn; by rewrite vars_of_sess_insert_eq.
Qed.

Lemma X13_witness :
  trigger_playback lone_leg (fresh (demo_app one_arg_callback 1)) =
    (Raised NotBridged, fresh (demo_app one_arg_callback 1), []) ∧
  outcome_of
    (on_recstop lone_leg demo_caller_path (fresh (demo_app one_arg_callback 1))) =
    Raised NotBridged.
Proof.
  destruct (X13_missing_peer (fresh (demo_app one_arg_callback 1)) lone_leg
              demo_caller_path eq_refl) as (H1 & _ & _ & H2 & _).
  split; [exact H1 | exact H2].
Defined.

(** *** [__setduration__], the other cases *)

Lemma int_lt_one (r : Z) : num_lt (Int r) (Float 1) = (r <? 1).
Proof.
  unfold num_lt, int_lt_float.
  replace (Prim2SF 1) with (S754_finite false 4503599627370496 (-52))
    by (vm_compute; reflexivity).
  cbn -[Z.mul Z.ltb].
  destruct (Z.ltb_spec (r * 4503599627370496) 4503599627370496),
    (Z.ltb_spec r 1); try done; lia.
Qed.


(** X15. With an integer duration and an integer clip length above 0,
    [__setduration__] is exact: [iterations] is the floor quotient, the
    remainder lies in [0, clip_length) and
    [iterations * clip_length + remainder] is the duration; the stored tail
    is the remainder, as an int, when it is at least 1 and the float 1.0 when
    the remainder is 0. *)
Theorem X15_setduration_integers (st : State) (v c : Z) :
  self_clip_length (self st) = Int c →
  0 < c →
  outcome_of (__setduration__ (Int v) st) = Ok tt ∧
  self_iterations (self (state_after (__setduration__ (Int v) st))) =
    Int (v / c) ∧
  self_tail (self (state_after (__setduration__ (Int v) st))) =
    (if v mod c =? 0 then Float 1 else Int (v mod c)) ∧
  0 ≤ v mod c < c ∧
  (v / c) * c + v mod c = v.
Proof.
  intros Hclip Hc.
  destruct (setduration_result st (Int v) (Int (v / c)) (Int (v mod c)))
    as (Hok & Hi & Ht & _).
  { rewrite Hclip. unfold divmod.
    destruct (Z.eqb_spec c 0); [lia|done]. }
  pose proof (Z.mod_pos_bound v c Hc) as Hb.
  split; [done|]. split; [done|]. split; [|split; [done|]].
  - rewrite Ht, int_lt_one.
    destruct (Z.ltb_spec (v mod c) 1), (Z.eqb_spec (v mod c) 0);
      try done; lia.
  - pose proof (Z.div_mod v c ltac:(lia)). lia.
Qed.

Lemma X15_witness :
  self_iterations
    (self (state_after (__setduration__ (Int 10)
       (fresh (instance demo_client "clip.wav" "ivr" (Int 4) 8000 (Int 1)
                 None_ 1 false))))) = Int 2 ∧
  self_tail
    (self (state_after (__setduration__ (Int 10)
       (fresh (instance demo_client "clip.wav" "ivr" (Int 4) 8000 (Int 1)
                 None_ 1 false))))) = Int 2.
Proof.
  destruct (X15_setduration_integers
              (fresh (instance demo_client "clip.wav" "ivr" (Int 4) 8000
                        (Int 1) None_ 1 false)) 10 4 eq_refl)
    as (_ & H1 & H2 & _); [lia|].
  split; [exact H1 | exact H2].
Defined.

(** X16. Changing the duration only affects calls answered afterwards:
    [__setduration__] touches no call and no session, and the next inbound
    CHANNEL_ANSWER copies the new [iterations] and [tail] into its own call,
    leaving the values of every other call as they were. *)
Theorem X16_duration_applies_to_later_calls (st : State) (value : num)
    (q r : num) (i : Session) :
  divmod value (self_clip_length (self st)) = Ok (q, r) →
  dir i = inbound →
  self_rec_rate (self st) ≠ 0 →
  call_vars (state_after (__setduration__ value st)) = call_vars st ∧
  sess_vars (state_after (__setduration__ value st)) = sess_vars st ∧
  iterations
    (vars_of_call
       (state_after (on_answer i (state_after (__setduration__ value st))))
       (call i)) = Some q ∧
  tail
    (vars_of_call
       (state_after (on_answer i (state_after (__setduration__ value st))))
       (call i)) = Some (if num_lt r (Float 1) then Float 1 else r) ∧
  (∀ c, c ≠ call i →
        vars_of_call
          (state_after (on_answer i (state_after (__setduration__ value st))))
          c = vars_of_call st c).
Proof.
  intros Hdiv Hd Hrate.
  destruct (setduration_result st value q r Hdiv) as (_ & Hi & Ht & _).
  assert (Hframe : call_vars (state_after (__setduration__ value st)) =
                   call_vars st ∧
                   sess_vars (state_after (__setduration__ value st)) =
                   sess_vars st ∧
                   self_rec_rate (self (state_after (__setduration__ value st))) =
                   self_rec_rate (self st)).
  { unfold __setduration__. unfold_monad. rewrite Hdiv. cbn.
    by destruct (num_lt r (Float 1)). }
  destruct Hframe as (Hcv & Hsv & Hr).
  set (st1 := state_after (__setduration__ value st)) in *.
  split; [done|]. split; [done|].
  assert (Hans : wp (on_answer i) st1 (λ _ st2 _,
    iterations (vars_of_call st2 (call i)) = Some (self_iterations (self st1)) ∧
    tail (vars_of_call st2 (call i)) = Some (self_tail (self st1)) ∧
    ∀ c, c ≠ call i → vars_of_call st2 c = vars_of_call st1 c)).
  { unfold on_answer, is_inbound, is_outbound. rewrite Hd.
    wp_run.
    all: try (exfalso; unfold int_mod in *; cbn in *; rewrite Hr in *;
              by destruct (Z.eqb_spec (self_rec_rate (self st)) 0)).
    all: (split; [|split]); try (intros cid Hc); map_cases; done. }
  destruct Hans as (Hits & Htl & Hother).
  rewrite Hits, Htl, Hi, Ht. split; [done|]. split; [done|].
  intros c Hc. rewrite Hother by done. unfold vars_of_call. by rewrite Hcv.
Qed.

Lemma X16_witness :
  iterations
    (vars_of_call
       (state_after
          (on_answer leg_b
             (state_after (__setduration__ (Int 10)
                (fresh (demo_app one_arg_callback 1))))))
       "call-1") = Some (Float 2) ∧
  tail
    (vars_of_call
       (state_after
          (on_answer leg_b
             (state_after (__setduration__ (Int 10)
                (fresh (demo_app one_arg_callback 1))))))
       "call-1") = Some (Float 1.5).
Proof.
  destruct (X16_duration_applies_to_later_calls
              (fresh (demo_app one_arg_callback 1)) (Int 10)
              (Float 2) (Float 1.5) leg_b eq_refl eq_refl ltac:(discriminate))
    as (_ & _ & H1 & H2 & _).
  split; [exact H1 | exact H2].
Defined.

(** *** Recording flags, hangups and warnings *)

(** X17. The ['recorded'] flag of a session follows its recording:
    RECORD_START sets it to [False] and RECORD_STOP to [True], also when the
    reaction goes on to raise, and no other event of any session changes
    it. *)
Theorem X17_recorded_flag_lifecycle (st : State) (sess : Session)
    (fp : string) :
  recorded (vars_of_sess (state_after (on_rec sess fp st)) (uuid sess)) =
    Some false ∧
  recorded (vars_of_sess (state_after (on_recstop sess fp st)) (uuid sess)) =
    Some true ∧
  (∀ e,
     (∀ s fp', e = RECORD_START s fp' → uuid s ≠ uuid sess) →
     (∀ s fp', e = RECORD_STOP s fp' → uuid s ≠ uuid sess) →
     recorded (vars_of_sess (state_after (react e st)) (uuid sess)) =
       recorded (vars_of_sess st (uuid sess))).
Proof.
  split; [|split].
  - assert (H : wp (on_rec sess fp) st (λ _ st' _,
      recorded (vars_of_sess st' (uuid sess)) = Some false)); [|exact H].
    unfold on_rec. wp_run; map_cases; done.
  - assert (H : wp (on_recstop sess fp) st (λ _ st' _,
      recorded (vars_of_sess st' (uuid sess)) = Some true)); [|exact H].
    unfold on_recstop. wp_run; map_cases; done.
  - intros e. exact (wp_elim _ _ _ (react_recorded_frame e st (uuid sess))).
Qed.

(** X18. Of two legs that stop recording one after the other, the app hangs
    up only the second: the first RECORD_STOP, its peer still recording,
    schedules nothing, and the second schedules the hangup of its own leg
    0.5 s ahead, before the registry is even looked at. *)
Theorem X18_only_last_leg_hung_up (st : State) (a b : Session)
    (fa fb : string) :
  uuid a ≠ uuid b →
  peer a = Some (uuid b) →
  peer b = Some (uuid a) →
  recorded (vars_of_sess st (uuid b)) = Some false →
  hangups (effects_of (on_recstop a fa st)) = [] ∧
  hangups (snd (run [RECORD_STOP a fa; RECORD_STOP b fb] st)) =
    [(uuid b, Float 0.5)].
Proof.
  intros Hne Hpa Hpb Hb.
  destruct (on_recstop_first st a b fa Hne Hpa Hb) as (_ & _ & _ & Ha1 & _).
  assert (H1 : hangups (effects_of (on_recstop a fa st)) = []).
  { unfold on_recstop. unfold_monad. rewrite Hpa.
    destruct (hungup a); cbn;
      rewrite vars_of_sess_insert_ne by done;
      (replace (mkState (self st) (sess_vars st) (call_vars st)) with st
         by (by destruct st));
      by rewrite Hb. }
  split; [done|].
  cbn [run react snd]. rewrite app_nil_r, hangups_app, H1. cbn [app].
  set (st1 := state_after (on_recstop a fa st)) in *.
  unfold on_recstop. unfold_monad. rewrite Hpb.
  destruct (hungup b); cbn;
    rewrite vars_of_sess_insert_ne by done;
    (replace (mkState (self st1) (sess_vars st1) (call_vars st1)) with st1
       by (by destruct st1));
    rewrite Ha1; cbn;
    (destruct (self_call2recs (self st1) !! call b) as [recs|]; cbn; [|done]);
    (destruct (truthy (self_callback (self st1))); cbn; [|done]);
    (destruct (recs !! "caller"); cbn; [|done]);
    (destruct (recs !! "callee"); cbn; done).
Qed.

Lemma X18_witness :
  hangups (snd (run [RECORD_STOP leg_a demo_caller_path;
                     RECORD_STOP leg_b demo_callee_path] recording_state)) =
    [("leg-b", Float 0.5)].
Proof.
  exact (proj2 (X18_only_last_leg_hung_up recording_state leg_a leg_b
                  demo_caller_path demo_callee_path
                  ltac:(discriminate) eq_refl eq_refl eq_refl)).
Defined.

(** X19. The [hungup] attribute of a session decides nothing but a log
    line: whatever it is set to, a reaction has the same outcome, leaves the
    same store and issues the same commands, in the same order. *)
Theorem X19_hungup_only_logs (h : bool) (e : event) (st : State) :
  outcome_of (react (event_with_hungup h e) st) = outcome_of (react e st) ∧
  state_after (react (event_with_hungup h e) st) = state_after (react e st) ∧
  without_warnings (effects_of (react (event_with_hungup h e) st)) =
    without_warnings (effects_of (react e st)).
Proof.
  destruct e as [s|s|s|s fp|s fp|s fp|s fp]; destruct s as [u c d hu p];
    cbn [event_with_hungup with_hungup uuid call dir peer];
    try (repeat split; reflexivity).
  unfold react, on_recstop. unfold_monad. cbn.
  destruct h, hu, p as [p|]; cbn; try done.
  all: destruct (default true (recorded _)); cbn; try done.
  all: destruct (self_call2recs (self st) !! c) as [recs|]; cbn; try done.
  all: destruct (truthy (self_callback (self st))); cbn; try done.
  all: destruct (recs !! "caller"); cbn; try done.
  all: destruct (recs !! "callee"); cbn; done.
Qed.

(** X20. The order of the two answers matters.  When the outbound leg of a
    call is answered before the inbound one, it finds the call not marked
    and starts the playback; the inbound answer that the gate then marks
    records the callee only, so the registry entry of the call holds no
    caller path.  With a callback set, the RECORD_STOP of the callee
    schedules the hangup and then raises [KeyError('caller')]: the callback
    is not invoked. *)
Theorem X20_outbound_answered_first (st : State) (a b : Session)
    (fp : string) :
  dir a = outbound → dir b = inbound →
  call a = call b → uuid a ≠ uuid b →
  peer a = Some (uuid b) → peer b = Some (uuid a) →
  record_enabled st (call a) = false →
  self_call2recs (self st) !! call a = None →
  int_mod (self_call_count (self st) + 1) (self_rec_rate (self st)) = Ok 0 →
  recorded (vars_of_sess st (uuid a)) ≠ Some false →
  truthy (self_callback (self st)) = true →
  let callee :=
    self_recsdir (self st) +:+ "/callee_" +:+ uuid b +:+ ".wav" in
  let st3 := fst (run (outbound_first a b fp) st) in
  snd (run (outbound_first a b fp) st) =
    [ Playback (uuid b) (self_silence (self st));
      StartRecord (uuid b) callee (self_stereo (self st)) ] ∧
  self_call2recs (self st3) !! call a = Some (<["callee" := callee]> ∅) ∧
  outcome_of (on_recstop b fp st3) = Raised (KeyError "caller") ∧
  without_warnings (effects_of (on_recstop b fp st3)) =
    [ SchedHangup (uuid b) (Float 0.5) ].
Proof.
  intros Hda Hdb Hc Hne Hpa Hpb Hrec Hreg Hmod Hra Hcb callee st3.
  subst st3 callee.
  destruct a as [ua ca da ha pa], b as [ub cb db hb pb]; cbn in *; subst.
  unfold outbound_first. cbn [run react fst snd].
  unfold on_answer, on_rec, on_recstop, trigger_playback, is_inbound,
    is_outbound, record_enabled in *.
  unfold_monad. cbn.
  replace (mkState (self st) (sess_vars st) (call_vars st)) with st
    by (by destruct st).
  rewrite Hrec. cbn. rewrite Hmod. cbn.
  unfold call2recs_store. rewrite Hreg. cbn.
  rewrite lookup_insert_eq.
  assert (Ha : default true (recorded (vars_of_sess st ua)) = true).
  { by destruct (recorded (vars_of_sess st ua)) as [[]|]. }
  unfold vars_of_sess in *.
  destruct hb; cbn;
    rewrite !(lookup_insert_ne _ ub ua) by done;
    rewrite Ha; cbn; rewrite lookup_insert_eq; cbn; rewrite Hcb; cbn;
    rewrite lookup_insert_ne by done; rewrite lookup_empty; cbn; done.
Qed.

Lemma X20_witness :
  outcome_of
    (on_recstop leg_b demo_callee_path
       (fst (run (outbound_first leg_a leg_b demo_callee_path)
               (fresh (demo_app one_arg_callback 1))))) =
    Raised (KeyError "caller").
Proof.
  apply (X20_outbound_answered_first (fresh (demo_app one_arg_callback 1))
           leg_a leg_b demo_callee_path).
  - reflexivity.
  - reflexivity.
  - reflexivity.
  - discriminate.
  - reflexivity.
  - reflexivity.
  - reflexivity.
  - reflexivity.
  - reflexivity.
  - discriminate.
  - reflexivity.
Defined.

(** The two paths [on_answer] builds for a call never coincide, whatever
    the directory and the session ids. *)
Lemma callee_caller_distinct (app : PlayRec) (u v : string) :
  callee_path app u ≠ caller_path app v.
Proof.
  unfold callee_path, caller_path.
  induction (self_recsdir app) as [|ch s IH]; cbn; [discriminate|].
  intros H. apply IH. by injection H.
Qed.

Lemma react_paths_well_formed e st :
  paths_well_formed st → paths_well_formed (state_after (react e st)).
Proof.
  intros Hwf.
  assert (H : wp (react e) st (λ _ st' _, paths_well_formed st'));
    [|exact H].
  wp_event e; try done.
  all: intros cid recs Hl; cbn in *.
  all: unfold callee_path, caller_path, call2recs_store in *; cbn in *.
  all: try (by apply (Hwf cid recs)).
  all: rewrite lookup_insert in Hl; case_decide; simplify_eq.
  all: try (by apply (Hwf cid recs)).
  all: split; intros p Hp; rewrite lookup_insert in Hp; case_decide;
    simplify_eq; eauto.
  all: destruct (self_call2recs (self st) !! cid) as [recs0|] eqn:Hr0;
    cbn in *; [|by rewrite lookup_empty in Hp].
  all: by apply (Hwf _ _ Hr0).
Qed.

Lemma react_callback_from_registry e st :
  wp (react e) st (λ _ _ fx,
    ∀ info, info ∈ callbacks fx →
      ∃ c recs, self_call2recs (self st) !! c = Some recs ∧
                recs !! "caller" = Some (caller info) ∧
                recs !! "callee" = Some (callee info)).
Proof.
  wp_event e; intros info Hin; cbn in Hin;
    try (by apply elem_of_nil in Hin).
  all: apply list_elem_of_singleton in Hin; subst info; cbn; eauto.
Qed.

(** X21. The two recordings of a call never share a file.  When every
    registered path was built by [on_answer] from the instance's [recsdir]
    (as in a store without entries), this stays so over every sequence of
    events; hence the caller's and the callee's path of an entry differ, and
    so do the two paths of every [RecInfo] handed to the callback. *)
Theorem X21_recordings_never_share_a_file (evs : list event) (st : State) :
  paths_well_formed st →
  paths_well_formed (fst (run evs st)) ∧
  (∀ c recs cr ce,
     self_call2recs (self (fst (run evs st))) !! c = Some recs →
     recs !! "caller" = Some cr → recs !! "callee" = Some ce → cr ≠ ce) ∧
  (∀ info, info ∈ callbacks (snd (run evs st)) → caller info ≠ callee info).
Proof.
  assert (Hdiff : ∀ s, paths_well_formed s →
    ∀ c recs cr ce, self_call2recs (self s) !! c = Some recs →
      recs !! "caller" = Some cr → recs !! "callee" = Some ce → cr ≠ ce).
  { intros s Hs c recs cr ce Hl Hcr Hce.
    destruct (Hs c recs Hl) as [H1 H2].
    destruct (H1 cr Hcr) as [u ->]. destruct (H2 ce Hce) as [v ->].
    intros Heq. by apply (callee_caller_distinct (self s) v u). }
  revert st. induction evs as [|e evs IH]; intros st Hwf.
  - split; [done|]. split; [by apply Hdiff|].
    intros info Hin. by apply elem_of_nil in Hin.
  - pose proof (react_paths_well_formed e st Hwf) as Hwf1.
    destruct (IH _ Hwf1) as (IH1 & IH2 & IH3).
    cbn [run]. destruct (run evs (state_after (react e st))) as [st' fx];
      cbn [fst snd] in *.
    split; [done|]. split; [done|].
    intros info Hin. rewrite callbacks_app in Hin.
    apply elem_of_app in Hin as [Hin|Hin]; [|by apply IH3].
    destruct (wp_elim _ _ _ (react_callback_from_registry e st) info Hin)
      as (c & recs & Hl & Hcr & Hce).
    by apply (Hdiff st Hwf c recs).
Qed.

Lemma X21_witness :
  paths_well_formed (fresh (demo_app one_arg_callback 1)) ∧
  Forall (λ info, caller info ≠ callee info)
    (callbacks
       (snd (run (recorded_flow ++
                  [RECORD_STOP leg_a demo_caller_path;
                   RECORD_STOP leg_b demo_callee_path])
               (fresh (demo_app one_arg_callback 1))))).
Proof.
  assert (Hwf : paths_well_formed (fresh (demo_app one_arg_callback 1))).
  { intros c recs Hl.
    change ((∅ : gmap string (gmap string string)) !! c = Some recs) in Hl.
    by rewrite lookup_empty in Hl. }
  split; [exact Hwf|].
  apply Forall_forall.
  exact (proj2 (proj2 (X21_recordings_never_share_a_file _ _ Hwf))).
Defined.

(** X22. Events never reconfigure the app.  From the instance [prepost]
    builds, after any sequence of events the clip, the silence stream, the
    callback, the host, the rate, the recordings directory, the stereo flag,
    the iterations and the tail are those of the constructor: the tail is
    still 1.0 and the iterations are the argument given.  In particular the
    reference clip never equals the silence stream, so the two branches of
    PLAYBACK_START exclude each other. *)
Theorem X22_events_keep_configuration (client : Client)
    (filename category : string) (clip_length : num) (sample_rate : Z)
    (iterations : num) (callback : obj) (rec_rate : Z) (rec_stereo : bool)
    (a : PlayRec) (evs : list event) :
  prepost client filename category clip_length sample_rate iterations
    callback rec_rate rec_stereo = Ok a →
  same_config a (self (fst (run evs (fresh a)))) ∧
  self_tail (self (fst (run evs (fresh a)))) = Float 1 ∧
  self_iterations (self (fst (run evs (fresh a)))) = iterations ∧
  self_rec_rate (self (fst (run evs (fresh a)))) = rec_rate ∧
  self_audiofile (self (fst (run evs (fresh a)))) ≠
    self_silence (self (fst (run evs (fresh a)))).
Proof.
  intros Hpre.
  pose proof (prepost_audiofile_not_silence _ _ _ _ _ _ _ _ _ _ Hpre) as Hne.
  pose proof (run_same_config evs (fresh a)) as Hcfg.
  split; [exact Hcfg|].
  destruct Hcfg as (Ha & Hs & _ & _ & Hr & _ & _ & Hi & Ht).
  cbn [self fresh] in *.
  unfold prepost in Hpre. destruct (check_callback callback); [|done].
  injection Hpre as <-. cbn in *.
  rewrite Ht, Hi, Hr. repeat split; try done.
  by rewrite Ha, Hs.
Qed.

Lemma X22_witness :
  self_tail (self (fst (run recorded_flow
                          (fresh (demo_app one_arg_callback 1))))) = Float 1.
Proof.
  apply (X22_events_keep_configuration demo_client
           "ivr-founder_of_freesource.wav" "ivr" (Float 4.25) 8000 (Int 1)
           one_arg_callback 1 false (demo_app one_arg_callback 1)
           recorded_flow).
  reflexivity.
Defined.
